(** * AI Personalized Career and Skills Advisor: the pipeline of [app.py]

    A shallow embedding of the skill-extraction, role-matching and
    learning-plan code of [app.py], followed by the properties of the
    specification that are stated about it.

    Conventions of the embedding.
    - A Python [str] is a [string]; every [ascii] stands for one code point
      below 256, so [lower], [strip] and [isspace] are the Python operations
      restricted to that range.
    - A Python [dict] is an association list in insertion order whose keys
      are kept distinct by [Dict.set] (assigning to an existing key updates
      it in place, a new key is appended), as iteration over a dict observes.
    - A Python number is the rational it denotes: an [int] any integer, a
      [float] a binary64 number.  The operations on floats round as IEEE 754
      does ([PyNum.fl]: to the nearest binary64 number, ties to the even
      mantissa, with gradual underflow), so [x / y] is the binary64 number
      nearest to the quotient and [round(x, 2)] the one nearest to the
      hundredth nearest to [x].  Overflow is not modelled: the numbers of the
      program lie between 0 and 100.
    - [list(set(l))] keeps the elements of [l] once each; Python leaves the
      order open, the model fixes one ([nodup]).
    - spaCy, PyPDF2 and python-docx are outside the program: the tokenizer is
      a parameter [nlp], which gives the tokens of a text or raises (spaCy
      refuses a text longer than its [max_length]), and an uploaded file
      carries what the two parsers do on it (the pages or paragraphs they
      yield and the exceptions they throw).
    - The page layout and the tables are left out.  The two
      regular-expression extractors ([extract_education],
      [extract_experience]) and the heat map do not feed the scores; they are
      modelled on their own. *)

From Stdlib Require Import List String Ascii Bool Arith ZArith QArith Qround.
From Stdlib Require Import Qpower.
From Stdlib Require Decimal DecimalString DecimalZ DecimalPos.
From Stdlib Require Import Lia Lqa Permutation Sorted.
Import ListNotations.

Local Close Scope Q_scope.
Local Open Scope string_scope.

(** ** Python strings *)

Module PyStr.

(** [str.isspace] on one code point below 256. *)
Definition isspace (c : ascii) : bool :=
  let n := nat_of_ascii c in
  (((9 <=? n) && (n <=? 13)) || ((28 <=? n) && (n <=? 32))
   || (n =? 133) || (n =? 160))%nat.

(** [str.lower] on one code point below 256: A-Z and the accented capitals
    of Latin-1 (all of 192..222 but the multiplication sign 215). *)
Definition lower_char (c : ascii) : ascii :=
  let n := nat_of_ascii c in
  if (((65 <=? n) && (n <=? 90))
      || ((192 <=? n) && (n <=? 222) && negb (n =? 215)))%nat
  then ascii_of_nat (n + 32) else c.

Fixpoint lower (s : string) : string :=
  match s with
  | EmptyString => EmptyString
  | String c s' => String (lower_char c) (lower s')
  end.

Fixpoint lstrip (s : string) : string :=
  match s with
  | EmptyString => EmptyString
  | String c s' => if isspace c then lstrip s' else s
  end.

Fixpoint rstrip (s : string) : string :=
  match s with
  | EmptyString => EmptyString
  | String c s' =>
      match rstrip s' with
      | EmptyString => if isspace c then EmptyString else String c EmptyString
      | r => String c r
      end
  end.

(** [s.strip()] *)
Definition strip (s : string) : string := rstrip (lstrip s).

(** [s.split(sep)] for a one-character separator: one fragment more than
    there are separators, empty fragments kept. *)
Fixpoint split (sep : ascii) (s : string) : list string :=
  match s with
  | EmptyString => [EmptyString]
  | String c s' =>
      if Ascii.eqb c sep then EmptyString :: split sep s'
      else match split sep s' with
           | [] => [String c EmptyString]
           | f :: fs => String c f :: fs
           end
  end.

(** Truth value of a string: nonempty. *)
Definition truthy (s : string) : bool :=
  match s with EmptyString => false | _ => true end.

(** [x in l] for a list of strings. *)
Definition mem (x : string) (l : list string) : bool :=
  existsb (String.eqb x) l.

(** [sep.join(l)] for a one-character separator. *)
Fixpoint join (sep : ascii) (l : list string) : string :=
  match l with
  | [] => EmptyString
  | [f] => f
  | f :: l' => f ++ String sep (join sep l')
  end.

(** Whether every character of [s] is white space. *)
Fixpoint all_space (s : string) : bool :=
  match s with
  | EmptyString => true
  | String c s' => isspace c && all_space s'
  end.

(** Whether [c] occurs in [s]. *)
Fixpoint occurs (c : ascii) (s : string) : bool :=
  match s with
  | EmptyString => false
  | String c' s' => Ascii.eqb c' c || occurs c s'
  end.

(** First and last character, when there is one. *)
Definition first_char (s : string) : option ascii :=
  match s with EmptyString => None | String c _ => Some c end.

Fixpoint last_char (s : string) : option ascii :=
  match s with
  | EmptyString => None
  | String c EmptyString => Some c
  | String _ s' => last_char s'
  end.

End PyStr.

(** ** Python dicts with string keys *)

Module Dict.

Definition t (V : Type) : Type := list (string * V).

Definition empty {V} : t V := [].

Fixpoint get {V} (d : t V) (k : string) : option V :=
  match d with
  | [] => None
  | (k', v) :: d' => if String.eqb k k' then Some v else get d' k
  end.

(** [d.get(k, default)] *)
Definition get_default {V} (d : t V) (k : string) (default : V) : V :=
  match get d k with Some v => v | None => default end.

(** [d[k] = v] *)
Fixpoint set {V} (d : t V) (k : string) (v : V) : t V :=
  match d with
  | [] => [(k, v)]
  | (k', v') :: d' =>
      if String.eqb k k' then (k', v) :: d' else (k', v') :: set d' k v
  end.

Definition keys {V} (d : t V) : list string := map fst d.
Definition values {V} (d : t V) : list V := map snd d.

(** The assignments [d[k] = v] for the items [(k, v)] of [kvs] in turn. *)
Definition build {V} (acc : t V) (kvs : list (string * V)) : t V :=
  fold_left (fun d kv => set d (fst kv) (snd kv)) kvs acc.

(** [{k: v for (k, v) in kvs}] *)
Definition of_items {V} (kvs : list (string * V)) : t V := build empty kvs.

(** [Counter(l)]: occurrences of each element, keys in order of first
    occurrence. *)
Definition incr (d : t nat) (k : string) : t nat :=
  set d k (S (get_default d k 0)).

Definition Counter (l : list string) : t nat := fold_left incr l empty.

End Dict.

(** ** [sorted(l, key=..., reverse=True)]

    Python's [sorted] is stable, and stays so under [reverse=True]: the
    result is in descending key order and elements with equal keys keep their
    order in [l].  That arrangement is unique, so the algorithm behind it
    cannot be observed; the model inserts each element, from the last to the
    first, in front of the first element whose key is not larger. *)

Module PySort.

Section Sorted.
Context {A : Type} (key : A -> Q).

Fixpoint insert_desc (x : A) (l : list A) : list A :=
  match l with
  | [] => [x]
  | y :: l' =>
      if Qle_bool (key y) (key x) then x :: l else y :: insert_desc x l'
  end.

Definition sorted_reverse (l : list A) : list A :=
  fold_right insert_desc [] l.

(** The order of the result, and the elements of one key. *)
Definition ge_key (a b : A) : Prop := (key b <= key a)%Q.

Definition has_key (p : Q) (a : A) : bool := Qeq_bool (key a) p.

End Sorted.

End PySort.

(** ** Statements that may raise: state and exceptions

    The state holds what the parsing functions change: their local variable
    [text] and the messages shown with [st.error].  A [try] block leaves the
    state as it is at the point of the exception, as in Python. *)

Module Py.

(** An instance of [Exception], with its message [str(e)].  What the
    document libraries throw on a bad file derives from [Exception]. *)
Inductive exn : Type := Exception (msg : string).

Definition str (e : exn) : string := match e with Exception msg => msg end.

Record state : Type := mkState { text : string; st_errors : list string }.

Inductive outcome (A : Type) : Type :=
| Ret (a : A)
| Exc (e : exn).
Arguments Ret {A} a.
Arguments Exc {A} e.

Definition M (A : Type) : Type := state -> outcome A * state.

Definition ret {A} (a : A) : M A := fun s => (Ret a, s).

Definition raise {A} (e : exn) : M A := fun s => (Exc e, s).

Definition bind {A B} (m : M A) (k : A -> M B) : M B :=
  fun s =>
    match m s with
    | (Ret a, s') => k a s'
    | (Exc e, s') => (Exc e, s')
    end.

(** [try: body except Exception as e: handler(e)] *)
Definition try_except (body : M unit) (handler : exn -> M unit) : M unit :=
  fun s =>
    match body s with
    | (Ret tt, s') => (Ret tt, s')
    | (Exc e, s') => handler e s'
    end.

(** [for x in l: body(x)] *)
Fixpoint for_each {A} (l : list A) (body : A -> M unit) : M unit :=
  match l with
  | [] => ret tt
  | x :: l' => bind (body x) (fun _ => for_each l' body)
  end.

(** A loop that builds up a local value: [for x in l: acc = body(acc, x)]. *)
Fixpoint fold_m {A B} (body : B -> A -> M B) (l : list A) (acc : B) : M B :=
  match l with
  | [] => ret acc
  | x :: l' => bind (body acc x) (fold_m body l')
  end.

(** A call into a library, which returns a value or throws. *)
Definition call {A} (r : exn + A) : M A :=
  match r with
  | inl e => raise e
  | inr a => ret a
  end.

Definition get_text : M string := fun s => (Ret (text s), s).

Definition set_text (t : string) : M unit :=
  fun s => (Ret tt, mkState t (st_errors s)).

(** [st.error(msg)] *)
Definition st_error (msg : string) : M unit :=
  fun s => (Ret tt, mkState (text s) (st_errors s ++ [msg])%list).

End Py.

(** ** Python numbers *)

Module PyNum.

(** Nearest integer, ties to the even one. *)
Definition round_half_even (x : Q) : Z :=
  let f := Qfloor x in
  match Qcompare (x - inject_Z f)%Q (1 # 2)%Q with
  | Lt => f
  | Gt => (f + 1)%Z
  | Eq => if Z.even f then f else (f + 1)%Z
  end.

(** *** Binary64 *)

Definition pow2 (e : Z) : Q := Qpower 2 e.

(** The binary exponent of a positive number: [2^e <= q < 2^(e+1)]. *)
Definition exponent (q : Q) : Z :=
  let e0 := (Z.log2 (Qnum q) - Z.log2 (Zpos (Qden q)))%Z in
  if Qle_bool (pow2 e0) q then e0 else (e0 - 1)%Z.

(** The binary64 number nearest to a positive number: 53 bits of mantissa at
    the exponent of the number, which is not below -1022. *)
Definition nearest (q : Q) : Q :=
  let e := Z.max (exponent q) (-1022) in
  (inject_Z (round_half_even (q * pow2 (52 - e))%Q) * pow2 (e - 52))%Q.

(** The binary64 number that an exact result is rounded to. *)
Definition fl (q : Q) : Q :=
  let q' := Qred q in
  Qred match Qnum q' with
       | Z0 => 0%Q
       | Zpos _ => nearest q'
       | Zneg _ => (- nearest (- q'))%Q
       end.

(** [round(x, 2)] of a float: the decimal with two places nearest to [x],
    ties to even, and then the float nearest to that decimal. *)
Definition round2 (x : Q) : Q :=
  fl (Qmake (round_half_even (x * 100)%Q) 100).

(** [x / y]: true division, [ZeroDivisionError] on a zero divisor. *)
Definition truediv (x y : Q) : Py.M Q :=
  if Qeq_bool y 0 then Py.raise (Py.Exception "division by zero")
  else Py.ret (fl (x / y)%Q).

(** [x * y] where one of the two is a float. *)
Definition mul (x y : Q) : Q := fl (x * y)%Q.

(** [len(l)] as a number. *)
Definition len {A} (l : list A) : Q := inject_Z (Z.of_nat (List.length l)).

Definition of_nat (n : nat) : Q := inject_Z (Z.of_nat n).

(** [max(l)] of a nonempty list of counts. *)
Definition max_list (l : list nat) : nat := fold_right Nat.max 0%nat l.

End PyNum.

Notation "x <- m ;; k" := (Py.bind m (fun x => k))
  (at level 61, m at next level, right associativity).
Notation "m ;;; k" := (Py.bind m (fun _ => k))
  (at level 61, right associativity).

(** ** Data of the program *)

(** An uploaded file: its declared MIME type, and what each way of reading it
    gives.  [PdfReader] is [PyPDF2.PdfReader(file)]: it throws, or gives the
    pages, each with the result of [page.extract_text()].  [Document] is
    [docx.Document(file)] with the paragraphs and their [text].  [read_decode]
    is [file.read().decode("utf-8", errors="ignore")]. *)
Record UploadedFile : Type := mkUpload {
  type : string;
  PdfReader : Py.exn + list (Py.exn + string);
  Document : Py.exn + list (Py.exn + string);
  read_decode : string
}.

(** An element of [all_roles_scores]. *)
Record RoleScore : Type := mkRoleScore {
  Role : string;
  Match_pct : Q;
  Matched_Skills : list string;
  Missing_Skills : list string
}.

(** An element of [plan]. *)
Record PlanItem : Type := mkPlanItem {
  Week : Z;
  Skill : string;
  Resources : list string
}.

(** One radar chart: the axes and the two series. *)
Record Radar : Type := mkRadar {
  radar_role : string;
  all_skills : list string;
  user_vals : list Q;
  target_vals : list Q
}.

(** The role catalog of the program. *)
Definition role_skills : Dict.t (list string) :=
  [ ("Data Scientist",
      ["Python"; "SQL"; "Machine Learning"; "Statistics"; "Data Visualization"]);
    ("Full Stack Developer",
      ["JavaScript"; "React"; "Node.js"; "Databases"; "APIs"]);
    ("Cybersecurity Analyst",
      ["Networking"; "Linux"; "Threat Analysis"; "SIEM"; "Python"]);
    ("Cloud Engineer",
      ["AWS"; "Docker"; "Kubernetes"; "Terraform"; "Linux"]);
    ("Product Manager",
      ["Agile"; "Communication"; "Market Research"; "Roadmapping"; "SQL"]) ].

(** [list(set(l))] *)
Definition list_set (l : list string) : list string := nodup string_dec l.

(** ** The functions and the script of [app.py] *)

(** The texts of pages or paragraphs, a newline after each. *)
Definition pages_text (texts : list string) : string :=
  String.concat "" (map (fun t => t ++ String "010" "") texts).

(** [parse_pdf] *)
Definition parse_pdf (file : UploadedFile) : Py.M string :=
  Py.set_text "" ;;;
  Py.try_except
    (reader <- Py.call (PdfReader file) ;;
     Py.for_each reader (fun page =>
       extracted <- Py.call page ;;
       t <- Py.get_text ;;
       Py.set_text (t ++ extracted ++ String "010" "")))
    (fun e => Py.st_error ("PDF parsing error: " ++ Py.str e)) ;;;
  Py.get_text.

(** [parse_docx] *)
Definition parse_docx (file : UploadedFile) : Py.M string :=
  Py.set_text "" ;;;
  Py.try_except
    (doc <- Py.call (Document file) ;;
     Py.for_each doc (fun para =>
       para_text <- Py.call para ;;
       t <- Py.get_text ;;
       Py.set_text (t ++ para_text ++ String "010" "")))
    (fun e => Py.st_error ("DOCX parsing error: " ++ Py.str e)) ;;;
  Py.get_text.

Section Advisor.

(** The spaCy pipeline, seen through the texts of the tokens of [nlp(text)],
    or the exception it raises. *)
Variable nlp : string -> Py.exn + list string.

(** The role catalog ([role_skills] in the program). *)
Variable catalog : Dict.t (list string).

(** [common_skills = list(set(sum(role_skills.values(), [])))] *)
Definition common_skills : list string :=
  list_set (fold_left (fun acc l => (acc ++ l)%list) (Dict.values catalog) []).

(** Line 58: the tokens whose lower-case text is a lower-cased skill. *)
Definition skills_found (doc : list string) : list string :=
  filter (fun token =>
            PyStr.mem (PyStr.lower token) (map PyStr.lower common_skills))
         doc.

(** Line 60: [max(counts.values()) if counts else 1] *)
Definition max_count (counts : Dict.t nat) : nat :=
  match counts with
  | [] => 1%nat
  | _ => PyNum.max_list (Dict.values counts)
  end.

(** [extract_skills] *)
Definition extract_skills (text : string) : Py.M (Dict.t Q) :=
  doc <- Py.call (nlp text) ;;
  let counts := Dict.Counter (skills_found doc) in
  let max_count := max_count counts in
  Py.fold_m
    (fun d '(skill, count) =>
       q <- PyNum.truediv (PyNum.of_nat count) (PyNum.of_nat max_count) ;;
       Py.ret (Dict.set d skill (PyNum.round2 q)))
    counts Dict.empty.

(** The mapping that [extract_skills] builds from the counts (it is built
    without an exception, see [extract_skills_run]): each count over the
    largest, in binary64, rounded to two decimals. *)
Definition confidences (counts : Dict.t nat) : Dict.t Q :=
  map (fun kc =>
         (fst kc,
          PyNum.round2
            (PyNum.fl (PyNum.of_nat (snd kc)
                       / PyNum.of_nat (max_count counts)))))
      counts.

(** The dict comprehension of the manual entry. *)
Definition manual_skills_conf (manual_skills : string) : Dict.t Q :=
  Dict.of_items
    (map (fun s => (PyStr.strip s, 1%Q))
         (filter (fun s => PyStr.truthy (PyStr.strip s))
                 (PyStr.split "," manual_skills))).

(** Lines 77-109: the skill mapping of the user, from the uploaded resume
    or else from the manual entry. *)
Definition user_skills_conf (uploaded_resume : option UploadedFile)
    (manual_skills : string) : Py.M (Dict.t Q) :=
  match uploaded_resume with
  | Some f =>
      resume_text <-
        (if type f =? "application/pdf" then parse_pdf f
         else if type f =?
           "application/vnd.openxmlformats-officedocument.wordprocessingml.document"
         then parse_docx f
         else if type f =? "text/plain" then Py.ret (read_decode f)
         else Py.ret "") ;;
      if PyStr.truthy resume_text
      then extract_skills resume_text
      else Py.ret Dict.empty
  | None =>
      if PyStr.truthy manual_skills
      then Py.ret (manual_skills_conf manual_skills)
      else Py.ret Dict.empty
  end.

(** "100 * matched / required, rounded to two decimals", said of a binary64
    number [pct] without the functions that compute it: some hundredth
    [k/100] is at most half a hundredth from the exact percentage, and [pct]
    is the binary64 number nearest to [k/100], within 2^-53 of it,
    relatively. *)
Definition match_pct_pinned (matched required : nat) (pct : Q) : Prop :=
  exists k : Z,
    ((k # 100) - 100 * PyNum.of_nat matched / PyNum.of_nat required <= 1 # 200
     /\ 100 * PyNum.of_nat matched / PyNum.of_nat required - (k # 100)
        <= 1 # 200
     /\ pct = PyNum.fl (k # 100)
     /\ pct - (k # 100) <= (k # 100) * PyNum.pow2 (-53)
     /\ (k # 100) - pct <= (k # 100) * PyNum.pow2 (-53))%Q.

(** Lines 119-121: the body of the scoring loop for one role. *)
Definition score_role (user_skills : list string)
    (role : string) (req_skills : list string) : Py.M RoleScore :=
  let matched := filter (fun s => PyStr.mem s user_skills) req_skills in
  score <-
    match req_skills with
    | [] => Py.ret 0%Q
    | _ =>
        q <- PyNum.truediv (PyNum.len matched) (PyNum.len req_skills) ;;
        Py.ret (PyNum.round2 (PyNum.mul q 100))
    end ;;
  Py.ret (mkRoleScore role score matched
            (filter (fun s => negb (PyStr.mem s matched)) req_skills)).

(** The entry that [score_role] returns (it never raises, see
    [score_role_run]). *)
Definition score_entry (user_skills : list string)
    (role : string) (req_skills : list string) : RoleScore :=
  let matched := filter (fun s => PyStr.mem s user_skills) req_skills in
  mkRoleScore role
    match req_skills with
    | [] => 0%Q
    | _ =>
        PyNum.round2
          (PyNum.mul (PyNum.fl (PyNum.len matched / PyNum.len req_skills)) 100)
    end
    matched
    (filter (fun s => negb (PyStr.mem s matched)) req_skills).

(** Lines 117-121: the loop appends one entry per role. *)
Definition scores_unsorted (user_skills : list string)
    : Py.M (list RoleScore) :=
  Py.fold_m
    (fun acc '(role, req_skills) =>
       entry <- score_role user_skills role req_skills ;;
       Py.ret (acc ++ [entry])%list)
    catalog [].

(** Lines 117-122: [all_roles_scores] after the sort. *)
Definition all_roles_scores (user_skills : list string)
    : Py.M (list RoleScore) :=
  scores <- scores_unsorted user_skills ;;
  Py.ret (PySort.sorted_reverse Match_pct scores).

(** Lines 123-126: the learning plan. *)
Definition plan_item (skill : string) : PlanItem :=
  mkPlanItem 1 skill ["Coursera/YouTube Course on " ++ skill].

Definition plan (scores : list RoleScore) : list PlanItem :=
  fold_left
    (fun acc entry =>
       fold_left (fun acc' skill => (acc' ++ [plan_item skill])%list)
                 (Missing_Skills entry) acc)
    (firstn 5 scores) [].

(** Lines 144-149: the data of the radar chart of one entry. *)
Definition radar (conf : Dict.t Q) (entry : RoleScore) : Radar :=
  let user_skills := Dict.keys conf in
  let role := Role entry in
  let req_skills := Dict.get_default catalog role [] in
  let all := list_set (user_skills ++ req_skills)%list in
  mkRadar role all
    (map (fun skill => Dict.get_default conf skill 0%Q) all)
    (map (fun skill => if PyStr.mem skill req_skills then 1%Q else 0%Q) all).

Definition radars (conf : Dict.t Q) (scores : list RoleScore) : list Radar :=
  map (radar conf) (firstn 5 scores).

(** What one run of the script computes. *)
Record Outputs : Type := mkOutputs {
  out_conf : Dict.t Q;
  out_scores : list RoleScore;
  out_plan : list PlanItem;
  out_radars : list Radar
}.

Definition app_py (uploaded_resume : option UploadedFile)
    (manual_skills : string) : Py.M Outputs :=
  conf <- user_skills_conf uploaded_resume manual_skills ;;
  let user_skills := Dict.keys conf in
  scores <- all_roles_scores user_skills ;;
  Py.ret (mkOutputs conf scores (plan scores) (radars conf scores)).

End Advisor.

(** The state in which the script starts. *)
Definition init : Py.state := Py.mkState "" [].

(** A skill mapping whose confidences are all in [0,1]. *)
Definition unit_valued (conf : Dict.t Q) : Prop :=
  forall k v, In (k, v) conf -> (0 <= v)%Q /\ (v <= 1)%Q.

(** ** The learning plan as JSON

    Line 138 hands the plan to pandas: [pd.DataFrame(plan)] has one row per
    item and the columns Week, Skill and Resources, and
    [to_json(orient='records', indent=2)] writes the rows as a JSON array of
    objects keyed by column.  The writer below is a JSON writer with the
    layout and the escapes of that call (one member or element per line, two
    spaces per level, no space after the colon, the solidus escaped, code
    points outside printable ASCII as [\u00XX]), and [loads] is a JSON reader
    for the values that occur: integers, strings, arrays and objects.  The
    reader takes any JSON white space between tokens, so reading back does
    not depend on the layout. *)

Module Json.

#[local] Unset Elimination Schemes.

Inductive value : Type :=
| Int (z : Z)
| Str (s : string)
| Arr (items : list value)
| Obj (members : list (string * value)).

#[local] Set Elimination Schemes.

Inductive token : Type :=
| LBrack | RBrack | LBrace | RBrace | Colon | Comma
| TInt (z : Z)
| TStr (s : string).

(** *** Writing *)

Definition quote_char : ascii := "034"%char.
Definition backslash : ascii := "092"%char.

Definition hex_digit (n : nat) : ascii :=
  if (n <? 10)%nat then ascii_of_nat (48 + n) else ascii_of_nat (87 + n).

Definition escape_char (c : ascii) : string :=
  let n := nat_of_ascii c in
  if (n =? 34)%nat then String backslash (String quote_char "")
  else if (n =? 92)%nat then String backslash (String backslash "")
  else if (n =? 47)%nat then String backslash "/"
  else if (n =? 8)%nat then String backslash "b"
  else if (n =? 12)%nat then String backslash "f"
  else if (n =? 10)%nat then String backslash "n"
  else if (n =? 13)%nat then String backslash "r"
  else if (n =? 9)%nat then String backslash "t"
  else if ((n <? 32) || (128 <=? n))%nat
  then String backslash
         (String "u" (String "0" (String "0"
            (String (hex_digit (n / 16))
               (String (hex_digit (n mod 16)) "")))))
  else String c "".

Fixpoint escape (s : string) : string :=
  match s with
  | EmptyString => EmptyString
  | String c s' => escape_char c ++ escape s'
  end.

Definition quote (s : string) : string :=
  String quote_char (escape s ++ String quote_char "").

Fixpoint spaces (n : nat) : string :=
  match n with
  | O => EmptyString
  | S n' => String " " (spaces n')
  end.

(** A line break and the indentation of nesting depth [d]. *)
Definition newline (d : nat) : string := String "010" (spaces (2 * d)).

(** The rendered elements of an array or members of an object at depth [d]:
    each on a line of its own, a comma after all but the last. *)
Fixpoint body (d : nat) (texts : list string) : string :=
  match texts with
  | [] => EmptyString
  | [t] => newline (S d) ++ t
  | t :: rest => newline (S d) ++ t ++ String "," (body d rest)
  end.

Fixpoint dumps (d : nat) (v : value) : string :=
  match v with
  | Int z => DecimalString.NilEmpty.string_of_int (Z.to_int z)
  | Str s => quote s
  | Arr [] => "[]"
  | Arr items =>
      String "[" (body d (map (dumps (S d)) items) ++ newline d ++ "]")
  | Obj [] => "{}"
  | Obj members =>
      String "{"
        (body d (map (fun '(k, x) => quote k ++ String ":" (dumps (S d) x))
                     members)
         ++ newline d ++ "}")
  end.

(** *** Reading: characters to tokens *)

Inductive mode : Type :=
| Default
| InNum (digits : string)
| InStr (acc : string)
| InEsc (acc : string)
| InHex (acc : string) (n : nat) (code : nat).

Definition lstate : Type := (mode * list token)%type.

Definition is_digit (c : ascii) : bool :=
  let n := nat_of_ascii c in ((48 <=? n) && (n <=? 57))%nat.

Definition is_ws (c : ascii) : bool :=
  let n := nat_of_ascii c in
  ((n =? 32) || (n =? 10) || (n =? 13) || (n =? 9))%nat.

Definition hex_value (c : ascii) : option nat :=
  let n := nat_of_ascii c in
  if ((48 <=? n) && (n <=? 57))%nat then Some (n - 48)
  else if ((97 <=? n) && (n <=? 102))%nat then Some (n - 87)
  else if ((65 <=? n) && (n <=? 70))%nat then Some (n - 55)
  else None.

(** A character outside strings and numbers. *)
Definition step_default (toks : list token) (c : ascii) : option lstate :=
  let n := nat_of_ascii c in
  if is_ws c then Some (Default, toks)
  else if (n =? 91)%nat then Some (Default, (toks ++ [LBrack])%list)
  else if (n =? 93)%nat then Some (Default, (toks ++ [RBrack])%list)
  else if (n =? 123)%nat then Some (Default, (toks ++ [LBrace])%list)
  else if (n =? 125)%nat then Some (Default, (toks ++ [RBrace])%list)
  else if (n =? 58)%nat then Some (Default, (toks ++ [Colon])%list)
  else if (n =? 44)%nat then Some (Default, (toks ++ [Comma])%list)
  else if (n =? 34)%nat then Some (InStr "", toks)
  else if (is_digit c || (n =? 45))%nat then Some (InNum (String c ""), toks)
  else None.

(** The token of a number read as [digits]: an optional minus sign, then
    decimal digits. *)
Definition number (digits : string) : option token :=
  match DecimalString.NilEmpty.int_of_string digits with
  | Some i => Some (TInt (Z.of_int i))
  | None => None
  end.

Definition step (st : lstate) (c : ascii) : option lstate :=
  let '(m, toks) := st in
  let n := nat_of_ascii c in
  match m with
  | Default => step_default toks c
  | InNum digits =>
      if is_digit c then Some (InNum (digits ++ String c ""), toks)
      else match number digits with
           | Some t => step_default (toks ++ [t])%list c
           | None => None
           end
  | InStr acc =>
      if (n =? 34)%nat then Some (Default, (toks ++ [TStr acc])%list)
      else if (n =? 92)%nat then Some (InEsc acc, toks)
      else if (n <? 32)%nat then None
      else Some (InStr (acc ++ String c ""), toks)
  | InEsc acc =>
      if (n =? 34)%nat || (n =? 92)%nat || (n =? 47)%nat
      then Some (InStr (acc ++ String c ""), toks)
      else if (n =? 98)%nat then Some (InStr (acc ++ String "008" ""), toks)
      else if (n =? 102)%nat then Some (InStr (acc ++ String "012" ""), toks)
      else if (n =? 110)%nat then Some (InStr (acc ++ String "010" ""), toks)
      else if (n =? 114)%nat then Some (InStr (acc ++ String "013" ""), toks)
      else if (n =? 116)%nat then Some (InStr (acc ++ String "009" ""), toks)
      else if (n =? 117)%nat then Some (InHex acc 0 0, toks)
      else None
  | InHex acc k code =>
      match hex_value c with
      | None => None
      | Some h =>
          let code' := (code * 16 + h)%nat in
          if (k =? 3)%nat
          then if (code' <? 256)%nat
               then Some (InStr (acc ++ String (ascii_of_nat code') ""), toks)
               else None
          else Some (InHex acc (S k) code', toks)
      end
  end.

Fixpoint run (st : lstate) (s : string) : option lstate :=
  match s with
  | EmptyString => Some st
  | String c s' =>
      match step st c with
      | Some st' => run st' s'
      | None => None
      end
  end.

(** At the end of the text a number may be complete; a string may not be
    open. *)
Definition finish (st : lstate) : option (list token) :=
  match st with
  | (Default, toks) => Some toks
  | (InNum digits, toks) =>
      match number digits with
      | Some t => Some (toks ++ [t])%list
      | None => None
      end
  | _ => None
  end.

Definition lex_from (st : lstate) (s : string) : option (list token) :=
  match run st s with
  | Some st' => finish st'
  | None => None
  end.

Definition lex (s : string) : option (list token) := lex_from (Default, []) s.

(** *** Reading: tokens to a value *)

Fixpoint parse_value (fuel : nat) (ts : list token)
    : option (value * list token) :=
  match fuel with
  | O => None
  | S n =>
      match ts with
      | TInt z :: r => Some (Int z, r)
      | TStr s :: r => Some (Str s, r)
      | LBrack :: RBrack :: r => Some (Arr [], r)
      | LBrack :: r =>
          match parse_elems n r with
          | Some (l, r') => Some (Arr l, r')
          | None => None
          end
      | LBrace :: RBrace :: r => Some (Obj [], r)
      | LBrace :: r =>
          match parse_members n r with
          | Some (l, r') => Some (Obj l, r')
          | None => None
          end
      | _ => None
      end
  end
with parse_elems (fuel : nat) (ts : list token)
    : option (list value * list token) :=
  match fuel with
  | O => None
  | S n =>
      match parse_value n ts with
      | Some (v, Comma :: r) =>
          match parse_elems n r with
          | Some (l, r') => Some (v :: l, r')
          | None => None
          end
      | Some (v, RBrack :: r) => Some ([v], r)
      | _ => None
      end
  end
with parse_members (fuel : nat) (ts : list token)
    : option (list (string * value) * list token) :=
  match fuel with
  | O => None
  | S n =>
      match ts with
      | TStr k :: Colon :: r =>
          match parse_value n r with
          | Some (v, Comma :: r') =>
              match parse_members n r' with
              | Some (l, r'') => Some ((k, v) :: l, r'')
              | None => None
              end
          | Some (v, RBrace :: r') => Some ([(k, v)], r')
          | _ => None
          end
      | _ => None
      end
  end.

(** [json.loads]: the whole text is one value. *)
Definition loads (s : string) : option value :=
  match lex s with
  | Some ts =>
      match parse_value (S (List.length ts)) ts with
      | Some (v, []) => Some v
      | _ => None
      end
  | None => None
  end.

(** *** What the proofs speak of *)

(** The tokens of a value. *)
Fixpoint sep_tokens (tss : list (list token)) : list token :=
  match tss with
  | [] => []
  | [ts] => ts
  | ts :: rest => (ts ++ Comma :: sep_tokens rest)%list
  end.

Fixpoint tokens (v : value) : list token :=
  match v with
  | Int z => [TInt z]
  | Str s => [TStr s]
  | Arr items => (LBrack :: sep_tokens (map tokens items) ++ [RBrack])%list
  | Obj members =>
      (LBrace
       :: sep_tokens
            (map (fun '(k, x) => TStr k :: Colon :: tokens x) members)
       ++ [RBrace])%list
  end.

(** The fuel that reading a value takes. *)
Fixpoint size (v : value) : nat :=
  match v with
  | Int _ | Str _ => 1
  | Arr items => S (list_sum (map (fun x => S (size x)) items))
  | Obj members => S (list_sum (map (fun '(_, x) => S (size x)) members))
  end.

(** What may follow a value: nothing, or a character that is not a digit. *)
Definition starts_plain (rest : string) : bool :=
  match rest with
  | EmptyString => true
  | String c _ => negb (is_digit c)
  end.

(** A text that the lexer, wherever it is between tokens, turns into the
    tokens [ts]. *)
Definition lexes_to (t : string) (ts : list token) : Prop :=
  forall toks rest,
    starts_plain rest = true ->
    lex_from (Default, toks) (t ++ rest)
    = lex_from (Default, (toks ++ ts)%list) rest.

(** A token list that does not begin with a closing bracket. *)
Definition opens (ts : list token) : Prop :=
  match ts with
  | RBrack :: _ => False
  | _ => True
  end.

End Json.

(** Lines 135-138: [pd.DataFrame(plan).to_json(orient='records', indent=2)].
    The rows of the frame are the items, its columns their three keys. *)
Definition record_of (item : PlanItem) : Json.value :=
  Json.Obj [ ("Week", Json.Int (Week item));
             ("Skill", Json.Str (Skill item));
             ("Resources", Json.Arr (map Json.Str (Resources item))) ].

Definition plan_df_to_json (plan : list PlanItem) : string :=
  Json.dumps 0 (Json.Arr (map record_of plan)).


(** ** The regular expressions of the program

    [extract_education] and [extract_experience] call [re.findall] with
    [re.IGNORECASE] on patterns made of single characters, [\d+], [\s+] and
    an optional last character.  The model has these pattern items and
    matches them as [re] does: from left to right, [+] taking as many
    characters as it can and giving them back one by one when the rest of
    the pattern fails, [?] trying the character first.  Under [IGNORECASE] a
    pattern character takes any text character with the same lower-case
    form; [\d] is a decimal digit and [\s] white space as [str.isspace] has
    it. *)

Module Re.

Inductive cls : Type :=
| Lit (c : ascii)
| Digit
| Space.

Inductive item : Type :=
| One (k : cls)
| Plus (k : cls)
| Opt (k : cls).

Definition accepts (k : cls) (x : ascii) : bool :=
  match k with
  | Lit c => Ascii.eqb (PyStr.lower_char x) (PyStr.lower_char c)
  | Digit => ((48 <=? nat_of_ascii x) && (nat_of_ascii x <=? 57))%nat
  | Space => PyStr.isspace x
  end.

(** [k+] and then the pattern [rest] (given by its matcher): the text taken
    by [k+], the texts taken by the items of [rest], and what is left. *)
Fixpoint plus_then (k : cls) (rest : string -> option (list string * string))
    (t : string) : option (string * list string * string) :=
  match t with
  | EmptyString => None
  | String x t' =>
      if accepts k x then
        match plus_then k rest t' with
        | Some (taken, parts, r) => Some (String x taken, parts, r)
        | None =>
            match rest t' with
            | Some (parts, r) => Some (String x "", parts, r)
            | None => None
            end
        end
      else None
  end.

(** A match of the pattern at the start of [t]: the text taken by each item
    and what is left of [t]. *)
Fixpoint match_here (p : list item) (t : string)
    : option (list string * string) :=
  match p with
  | [] => Some ([], t)
  | One k :: p' =>
      match t with
      | EmptyString => None
      | String x t' =>
          if accepts k x then
            match match_here p' t' with
            | Some (parts, r) => Some (String x "" :: parts, r)
            | None => None
            end
          else None
      end
  | Plus k :: p' =>
      match plus_then k (match_here p') t with
      | Some (taken, parts, r) => Some (taken :: parts, r)
      | None => None
      end
  | Opt k :: p' =>
      let without :=
        match match_here p' t with
        | Some (parts, r) => Some (EmptyString :: parts, r)
        | None => None
        end in
      match t with
      | EmptyString => without
      | String x t' =>
          if accepts k x then
            match match_here p' t' with
            | Some (parts, r) => Some (String x "" :: parts, r)
            | None => without
            end
          else without
      end
  end.

(** [re.findall]: the matches from left to right, none overlapping another;
    [result] picks what a match contributes (the whole match, or its group).
    [skip] counts the characters still inside the last match.  The patterns
    of the program take at least one character. *)
Fixpoint findall_from (p : list item) (result : list string -> string)
    (skip : nat) (t : string) : list string :=
  match t with
  | EmptyString => []
  | String _ t' =>
      match skip with
      | S n => findall_from p result n t'
      | O =>
          match match_here p t with
          | Some (parts, _) =>
              result parts
              :: findall_from p result
                   (String.length (String.concat "" parts) - 1) t'
          | None => findall_from p result 0 t'
          end
      end
  end.

Definition findall (p : list item) (result : list string -> string)
    (t : string) : list string :=
  findall_from p result 0 t.

(** The whole match, and the first group when it is the first item. *)
Definition whole (parts : list string) : string := String.concat "" parts.

Definition group1 (parts : list string) : string := hd EmptyString parts.

(** A pattern of plain characters. *)
Definition literal (s : string) : list item :=
  map (fun c => One (Lit c)) (list_ascii_of_string s).

(** *** What the proofs speak of *)

(** Whether every character of [s] is taken by [k]. *)
Fixpoint all_accepted (k : cls) (s : string) : bool :=
  match s with
  | EmptyString => true
  | String x s' => accepts k x && all_accepted k s'
  end.

(** The texts an item can take. *)
Definition takes (i : item) (s : string) : Prop :=
  match i with
  | One k => exists x, s = String x "" /\ accepts k x = true
  | Plus k => s <> "" /\ all_accepted k s = true
  | Opt k => s = "" \/ exists x, s = String x "" /\ accepts k x = true
  end.

End Re.

(** [extract_education]: the patterns [B\.Tech], [M\.Tech], [Bachelor],
    [Master] and [PhD]. *)
Definition edu_patterns : list (list Re.item) :=
  [ Re.literal "B.Tech"; Re.literal "M.Tech"; Re.literal "Bachelor";
    Re.literal "Master"; Re.literal "PhD" ].

Definition extract_education (text : string) : list string :=
  list_set
    (fold_left
       (fun education pattern =>
          (education ++ Re.findall pattern Re.whole text)%list)
       edu_patterns []).

(** [extract_experience]: the pattern [(\d+)\s+years?]. *)
Definition exp_pattern : list Re.item :=
  [ Re.Plus Re.Digit; Re.Plus Re.Space;
    Re.One (Re.Lit "y"); Re.One (Re.Lit "e"); Re.One (Re.Lit "a");
    Re.One (Re.Lit "r"); Re.Opt (Re.Lit "s") ].

Definition extract_experience (text : string) : list string :=
  Re.findall exp_pattern Re.group1 text.

(** Lines 157-163: the rows of the heat map, one per role among the first
    five scores, with a cell for every skill of the vocabulary. *)
Definition heatmap_roles (scores : list RoleScore) : list string :=
  map Role (firstn 5 scores).

Definition heatmap_data (catalog : Dict.t (list string))
    (scores : list RoleScore) : list (list Q) :=
  map (fun role =>
         map (fun skill =>
                if PyStr.mem skill (Dict.get_default catalog (Role role) [])
                then 1%Q else 0%Q)
             (common_skills catalog))
      (firstn 5 scores).

(** * Properties *)

(** ** Rounding *)

Module PyNumFacts.
Import PyNum.
Local Open Scope Q_scope.

Lemma round_half_even_compat (x y : Q) :
  x == y -> round_half_even x = round_half_even y.
Proof.
  intros E. unfold round_half_even.
  assert (F : Qfloor x = Qfloor y) by (now rewrite E).
  rewrite F.
  assert (C : (x - inject_Z (Qfloor y) ?= 1 # 2) =
              (y - inject_Z (Qfloor y) ?= 1 # 2)) by (now rewrite E).
  now rewrite C.
Qed.

Lemma round_half_even_bounds (a b : Z) (x : Q) :
  inject_Z a <= x -> x <= inject_Z b ->
  (a <= round_half_even x <= b)%Z.
Proof.
  intros Ha Hb.
  assert (Fa : (a <= Qfloor x)%Z).
  { rewrite <- (Qfloor_Z a). now apply Qfloor_resp_le. }
  assert (Fb : (Qfloor x <= b)%Z).
  { rewrite <- (Qfloor_Z b). now apply Qfloor_resp_le. }
  assert (Up : inject_Z (Qfloor x) < x -> (Qfloor x + 1 <= b)%Z).
  { intros L.
    assert (L' : inject_Z (Qfloor x) < inject_Z b)
      by (eapply Qlt_le_trans; eauto).
    rewrite <- Zlt_Qlt in L'. lia. }
  unfold round_half_even.
  destruct (x - inject_Z (Qfloor x) ?= 1 # 2) eqn:C.
  - apply Qeq_alt in C.
    destruct (Z.even (Qfloor x)); [lia|].
    split; [lia|]. apply Up.
    apply (Qplus_lt_l _ _ (- inject_Z (Qfloor x))).
    rewrite Qplus_opp_r.
    setoid_replace (x + - inject_Z (Qfloor x)) with (1 # 2) by exact C.
    reflexivity.
  - lia.
  - apply Qgt_alt in C.
    split; [lia|]. apply Up.
    apply (Qplus_lt_l _ _ (- inject_Z (Qfloor x))).
    rewrite Qplus_opp_r.
    eapply Qlt_trans; [|exact C]. reflexivity.
Qed.

(** *** Binary64 rounding *)

Lemma pow2_pos e : 0 < pow2 e.
Proof. apply Qpower_0_lt. reflexivity. Qed.

Lemma pow2_add a b : pow2 (a + b) == pow2 a * pow2 b.
Proof. apply Qpower_plus. discriminate. Qed.

Lemma pow2_le a b : (a <= b)%Z -> pow2 a <= pow2 b.
Proof. intros H. apply Qpower_le_compat_l; [exact H | discriminate]. Qed.

Lemma pow2_Z n : (0 <= n)%Z -> pow2 n == inject_Z (2 ^ n).
Proof. intros H. unfold pow2. now rewrite Zpower_Qpower. Qed.

Lemma log2_bounds (a : Z) :
  (0 < a)%Z -> pow2 (Z.log2 a) <= inject_Z a /\ inject_Z a < pow2 (Z.log2 a + 1).
Proof.
  intros H. destruct (Z.log2_spec a H) as [L U].
  pose proof (Z.log2_nonneg a) as N.
  rewrite !pow2_Z by lia. rewrite <- Zle_Qle, <- Zlt_Qlt.
  split; [exact L|]. now rewrite <- Z.add_1_r in U.
Qed.

Lemma exponent_spec (q : Q) :
  0 < q -> pow2 (exponent q) <= q /\ q < pow2 (exponent q + 1).
Proof.
  intros Hq. destruct q as [a b].
  assert (Ha : (0 < a)%Z) by (unfold Qlt in Hq; simpl in Hq; lia).
  destruct (log2_bounds a Ha) as [La Ua].
  destruct (log2_bounds (Zpos b) eq_refl) as [Lb Ub].
  set (la := Z.log2 a) in *. set (lb := Z.log2 (Zpos b)) in *.
  assert (E : a # b == inject_Z a / inject_Z (Zpos b)) by apply Qmake_Qdiv.
  assert (B : 0 < inject_Z (Zpos b)) by reflexivity.
  assert (Lo : pow2 (la - lb - 1) < a # b).
  { rewrite E. apply Qlt_shift_div_l; [exact B|].
    eapply Qlt_le_trans; [|exact La].
    assert (P : pow2 la == pow2 (la - lb - 1) * pow2 (lb + 1)).
    { rewrite <- pow2_add. apply Qpower_comp; [reflexivity | lia]. } 
    rewrite P. apply Qmult_lt_l; [apply pow2_pos | exact Ub]. }
  assert (Hi : a # b < pow2 (la - lb + 1)).
  { rewrite E. apply Qlt_shift_div_r; [exact B|].
    eapply Qlt_le_trans; [exact Ua|].
    assert (P : pow2 (la + 1) == pow2 (la - lb + 1) * pow2 lb).
    { rewrite <- pow2_add. apply Qpower_comp; [reflexivity | lia]. }
    rewrite P. apply Qmult_le_l; [apply pow2_pos | exact Lb]. }
  unfold exponent. cbn [Qnum Qden]. fold la lb.
  destruct (Qle_bool (pow2 (la - lb)) (a # b)) eqn:C.
  - apply Qle_bool_iff in C. split; [exact C | exact Hi].
  - split.
    + apply Qlt_le_weak. exact Lo.
    + replace (la - lb - 1 + 1)%Z with (la - lb)%Z by lia.
      apply Qnot_le_lt. intros H. apply Qle_bool_iff in H. congruence.
Qed.

Lemma fl_compat (x y : Q) : x == y -> fl x = fl y.
Proof. intros E. unfold fl. now rewrite (Qred_complete _ _ E). Qed.

Lemma round_half_even_error (y : Q) :
  inject_Z (round_half_even y) - y <= 1 # 2
  /\ y - inject_Z (round_half_even y) <= 1 # 2.
Proof.
  pose proof (Qfloor_le y) as L. pose proof (Qlt_floor y) as U.
  rewrite inject_Z_plus in U. change (inject_Z 1) with 1 in U.
  unfold round_half_even.
  destruct (Qcompare_spec (y - inject_Z (Qfloor y)) (1 # 2)) as [C|C|C];
    [destruct (Z.even (Qfloor y))|..];
    rewrite ?inject_Z_plus; change (inject_Z 1) with 1; split; lra.
Qed.

Lemma round_half_even_Z (n : Z) : round_half_even (inject_Z n) = n.
Proof.
  unfold round_half_even. rewrite Qfloor_Z.
  destruct (Qcompare_spec (inject_Z n - inject_Z n) (1 # 2)) as [C|C|C];
    [exfalso; lra | reflexivity | exfalso; lra].
Qed.

Lemma round_half_even_choice (x : Q) :
  round_half_even x = Qfloor x \/ round_half_even x = (Qfloor x + 1)%Z.
Proof.
  unfold round_half_even.
  destruct (Qcompare _ _); [destruct (Z.even _)|..]; auto.
Qed.

Lemma round_half_even_mono (x y : Q) :
  x <= y -> (round_half_even x <= round_half_even y)%Z.
Proof.
  intros L. pose proof (Qfloor_resp_le _ _ L) as F.
  destruct (Z.eq_dec (Qfloor x) (Qfloor y)) as [E|N].
  - unfold round_half_even. rewrite E.
    set (f := Qfloor y).
    destruct (Qcompare_spec (x - inject_Z f) (1 # 2)) as [Cx|Cx|Cx];
      destruct (Qcompare_spec (y - inject_Z f) (1 # 2)) as [Cy|Cy|Cy];
      try destruct (Z.even f); try lia; exfalso; lra.
  - destruct (round_half_even_choice x) as [->| ->],
      (round_half_even_choice y) as [->| ->]; lia.
Qed.

Lemma nearest_scaled (q : Q) (e : Z) : q * pow2 (52 - e) * pow2 (e - 52) == q.
Proof.
  rewrite <- Qmult_assoc, <- pow2_add.
  replace (52 - e + (e - 52))%Z with 0%Z by lia.
  change (pow2 0) with 1. apply Qmult_1_r.
Qed.

Lemma pow2_half (e : Z) : (1 # 2) * pow2 (e - 52) == pow2 (e - 53).
Proof.
  change (1 # 2) with (pow2 (-1)). rewrite <- pow2_add.
  apply Qpower_comp; [reflexivity | lia].
Qed.

(** The result is within half a unit in the last place. *)
Lemma nearest_error (q : Q) :
  let e := Z.max (exponent q) (-1022) in
  nearest q - q <= pow2 (e - 53) /\ q - nearest q <= pow2 (e - 53).
Proof.
  cbn zeta. unfold nearest.
  set (e := Z.max (exponent q) (-1022)).
  set (y := q * pow2 (52 - e)).
  destruct (round_half_even_error y) as [A B].
  pose proof (pow2_pos (e - 52)) as P.
  assert (Eq : q == y * pow2 (e - 52))
    by (unfold y; now rewrite nearest_scaled).
  clearbody y. rewrite <- pow2_half, Eq.
  split.
  - 
    setoid_replace (inject_Z (round_half_even y) * pow2 (e - 52)
                    - y * pow2 (e - 52))
      with ((inject_Z (round_half_even y) - y) * pow2 (e - 52)) by ring.
    apply Qmult_le_compat_r; [exact A | apply Qlt_le_weak, P].
  - setoid_replace (y * pow2 (e - 52)
                    - inject_Z (round_half_even y) * pow2 (e - 52))
      with ((y - inject_Z (round_half_even y)) * pow2 (e - 52)) by ring.
    apply Qmult_le_compat_r; [exact B | apply Qlt_le_weak, P].
Qed.

Lemma pow2_lt_inv (a b : Z) : pow2 a < pow2 b -> (a < b)%Z.
Proof.
  intros H. destruct (Z_lt_le_dec a b) as [L|G]; [exact L|].
  apply pow2_le in G. exfalso. lra.
Qed.

Lemma exponent_mono (x y : Q) :
  0 < x -> x <= y -> (exponent x <= exponent y)%Z.
Proof.
  intros Hx L. assert (Hy : 0 < y) by lra.
  destruct (exponent_spec x Hx) as [Lx _].
  destruct (exponent_spec y Hy) as [_ Uy].
  assert (H : pow2 (exponent x) < pow2 (exponent y + 1)) by lra.
  apply pow2_lt_inv in H. lia.
Qed.

Lemma nearest_lower (q : Q) :
  0 < q -> (-1022 <= exponent q)%Z -> pow2 (exponent q) <= nearest q.
Proof.
  intros Hq He. unfold nearest. rewrite Z.max_l by lia.
  set (e := exponent q).
  destruct (exponent_spec q Hq) as [L _]. fold e in L.
  assert (Y : inject_Z (2 ^ 52) <= q * pow2 (52 - e)).
  { rewrite <- pow2_Z by lia.
    setoid_replace (pow2 52) with (pow2 e * pow2 (52 - e)).
    - apply Qmult_le_compat_r; [exact L | apply Qlt_le_weak, pow2_pos].
    - rewrite <- pow2_add. apply Qpower_comp; [reflexivity | lia]. }
  apply round_half_even_mono in Y. rewrite round_half_even_Z in Y.
  rewrite Zle_Qle in Y.
  setoid_replace (pow2 e) with (inject_Z (2 ^ 52) * pow2 (e - 52)).
  - apply Qmult_le_compat_r; [exact Y | apply Qlt_le_weak, pow2_pos].
  - rewrite <- pow2_Z by lia. rewrite <- pow2_add.
    apply Qpower_comp; [reflexivity | lia].
Qed.

Lemma nearest_upper (q : Q) :
  0 < q -> nearest q <= pow2 (Z.max (exponent q) (-1022) + 1).
Proof.
  intros Hq. unfold nearest.
  set (e := Z.max (exponent q) (-1022)).
  destruct (exponent_spec q Hq) as [_ U].
  assert (U' : q <= pow2 (e + 1)).
  { apply Qlt_le_weak. eapply Qlt_le_trans; [exact U|].
    apply pow2_le. unfold e. lia. }
  assert (Y : q * pow2 (52 - e) <= inject_Z (2 ^ 53)).
  { rewrite <- pow2_Z by lia.
    setoid_replace (pow2 53) with (pow2 (e + 1) * pow2 (52 - e)).
    - apply Qmult_le_compat_r; [exact U' | apply Qlt_le_weak, pow2_pos].
    - rewrite <- pow2_add. apply Qpower_comp; [reflexivity | lia]. }
  apply round_half_even_mono in Y. rewrite round_half_even_Z in Y.
  rewrite Zle_Qle in Y.
  setoid_replace (pow2 (e + 1)) with (inject_Z (2 ^ 53) * pow2 (e - 52)).
  - apply Qmult_le_compat_r; [exact Y | apply Qlt_le_weak, pow2_pos].
  - rewrite <- pow2_Z by lia. rewrite <- pow2_add.
    apply Qpower_comp; [reflexivity | lia].
Qed.

Lemma nearest_mono (x y : Q) : 0 < x -> x <= y -> nearest x <= nearest y.
Proof.
  intros Hx L. assert (Hy : 0 < y) by lra.
  pose proof (exponent_mono x y Hx L) as E.
  destruct (Z.eq_dec (Z.max (exponent x) (-1022)) (Z.max (exponent y) (-1022)))
    as [Same|Diff].
  - unfold nearest. rewrite Same.
    set (e := Z.max (exponent y) (-1022)).
    apply Qmult_le_compat_r; [|apply Qlt_le_weak, pow2_pos].
    rewrite <- Zle_Qle. apply round_half_even_mono.
    apply Qmult_le_compat_r; [exact L | apply Qlt_le_weak, pow2_pos].
  - eapply Qle_trans; [apply (nearest_upper x Hx)|].
    eapply Qle_trans; [|apply (nearest_lower y Hy); lia].
    apply pow2_le. lia.
Qed.

Lemma Qred_pos (q : Q) : 0 < q -> exists p, Qnum (Qred q) = Zpos p.
Proof.
  intros H. assert (H' : 0 < Qred q) by now rewrite Qred_correct.
  unfold Qlt in H'. simpl in H'. rewrite Z.mul_1_r in H'.
  destruct (Qnum (Qred q)) as [|p|p]; try lia. now exists p.
Qed.

Lemma fl_pos (q : Q) : 0 < q -> fl q == nearest (Qred q).
Proof.
  intros H. unfold fl. destruct (Qred_pos q H) as (p & ->).
  apply Qred_correct.
Qed.

Lemma fl_zero (q : Q) : q == 0 -> fl q = 0.
Proof. intros H. now rewrite (fl_compat q 0 H). Qed.

Lemma nearest_nonneg (q : Q) : 0 < q -> 0 <= nearest q.
Proof.
  intros H. unfold nearest.
  apply Qmult_le_0_compat; [|apply Qlt_le_weak, pow2_pos].
  change 0 with (inject_Z 0). rewrite <- Zle_Qle.
  rewrite <- (round_half_even_Z 0). apply round_half_even_mono.
  apply Qmult_le_0_compat; [lra | apply Qlt_le_weak, pow2_pos].
Qed.

Lemma fl_nonneg (q : Q) : 0 <= q -> 0 <= fl q.
Proof.
  intros H. destruct (Qlt_le_dec 0 q) as [P|Z].
  - rewrite (fl_pos q P). apply nearest_nonneg.
    pose proof (Qred_correct q). lra.
  - rewrite fl_zero by lra. lra.
Qed.

(** Rounding keeps the order. *)
Lemma fl_mono (x y : Q) : 0 <= x -> x <= y -> fl x <= fl y.
Proof.
  intros Hx L. destruct (Qlt_le_dec 0 x) as [P|Z].
  - rewrite (fl_pos x P), (fl_pos y) by lra.
    pose proof (Qred_correct x). pose proof (Qred_correct y).
    apply nearest_mono; lra.
  - rewrite (fl_zero x) by lra. apply fl_nonneg. lra.
Qed.

(** In the normal range the relative error is at most 2^-53. *)
Lemma fl_error (q : Q) :
  pow2 (-1022) <= q ->
  fl q - q <= q * pow2 (-53) /\ q - fl q <= q * pow2 (-53).
Proof.
  intros N. pose proof (pow2_pos (-1022)) as P0.
  pose proof (Qred_correct q) as RQ.
  assert (P : 0 < q) by lra.
  assert (P' : 0 < Qred q) by lra.
  destruct (exponent_spec (Qred q) P') as [L U].
  assert (E : (-1022 <= exponent (Qred q))%Z).
  { assert (H : pow2 (-1022) < pow2 (exponent (Qred q) + 1)) by lra.
    apply pow2_lt_inv in H. lia. }
  pose proof (nearest_error (Qred q)) as [A B]. cbn zeta in A, B.
  rewrite Z.max_l in A, B by lia.
  assert (S : pow2 (exponent (Qred q) - 53) <= q * pow2 (-53)).
  { setoid_replace (pow2 (exponent (Qred q) - 53))
      with (pow2 (exponent (Qred q)) * pow2 (-53)).
    - apply Qmult_le_compat_r; [lra | apply Qlt_le_weak, pow2_pos].
    - rewrite <- pow2_add. apply Qpower_comp; [reflexivity | lia]. }
  rewrite (fl_pos q P). split; lra.
Qed.

Lemma round2_compat (x y : Q) : x == y -> round2 x = round2 y.
Proof.
  intros E. unfold round2.
  rewrite (round_half_even_compat (x * 100) (y * 100)); [reflexivity|].
  now rewrite E.
Qed.

Lemma hundredths_nonneg (x : Q) : 0 <= x -> (0 <= round_half_even (x * 100))%Z.
Proof.
  intros H. rewrite <- (round_half_even_Z 0). apply round_half_even_mono.
  change (inject_Z 0) with 0. lra.
Qed.

Lemma round2_mono (x y : Q) : 0 <= x -> x <= y -> round2 x <= round2 y.
Proof.
  intros Hx L. unfold round2. apply fl_mono.
  - pose proof (hundredths_nonneg x Hx). unfold Qle. simpl. lia.
  - unfold Qle. cbn [Qnum Qden].
    apply Z.mul_le_mono_nonneg_r; [lia|].
    apply round_half_even_mono. lra.
Qed.

(** [round2 x] is the binary64 number nearest to a hundredth that is
    nearest to [x]. *)
Lemma round2_nearest_hundredth (x : Q) :
  exists k : Z,
    round2 x = fl (k # 100)
    /\ (k # 100) - x <= 1 # 200 /\ x - (k # 100) <= 1 # 200
    /\ (0 <= x -> (0 <= k)%Z).
Proof.
  exists (round_half_even (x * 100)). split; [reflexivity|].
  cut (((round_half_even (x * 100) # 100) - x <= 1 # 200
        /\ x - (round_half_even (x * 100) # 100) <= 1 # 200)).
  { intros [A B]. repeat split; try assumption. apply hundredths_nonneg. }
  destruct (round_half_even_error (x * 100)) as [A B].
  set (k := round_half_even (x * 100)) in *.
  assert (E : (k # 100) * 100 == inject_Z k).
  { rewrite (Qmake_Qdiv k 100). change (inject_Z 100) with 100. field. }
  split; lra.
Qed.

Lemma fl_unit_interval (x : Q) :
  0 <= x -> x <= 1 -> 0 <= fl x /\ fl x <= 1.
Proof.
  intros H0 H1. split.
  - now apply fl_nonneg.
  - change (fl x <= fl 1). now apply fl_mono.
Qed.

Lemma round2_unit_interval (x : Q) :
  0 <= x -> x <= 1 -> 0 <= round2 x /\ round2 x <= 1.
Proof.
  intros H0 H1. split.
  - change (round2 0 <= round2 x). apply round2_mono; lra.
  - change (round2 x <= round2 1). now apply round2_mono.
Qed.

Lemma of_nat_nonneg (n : nat) : 0 <= of_nat n.
Proof. unfold of_nat, Qle. simpl. lia. Qed.

Lemma of_nat_le (n m : nat) : (n <= m)%nat -> of_nat n <= of_nat m.
Proof. intros H. unfold of_nat. rewrite <- Zle_Qle. lia. Qed.

Lemma of_nat_pos (n : nat) : (1 <= n)%nat -> 0 < of_nat n.
Proof.
  intros H. unfold of_nat. change 0 with (inject_Z 0).
  rewrite <- Zlt_Qlt. lia.
Qed.

Lemma of_nat_nonzero (n : nat) : (1 <= n)%nat -> Qeq_bool (of_nat n) 0 = false.
Proof.
  intros H. destruct (Qeq_bool (of_nat n) 0) eqn:E; [|reflexivity].
  apply Qeq_bool_iff in E. apply of_nat_pos in H.
  rewrite E in H. discriminate.
Qed.

(** A quotient of counts with the larger one below lies in [0,1]. *)
Lemma ratio_unit_interval (n m : nat) :
  (n <= m)%nat -> (1 <= m)%nat ->
  0 <= of_nat n / of_nat m /\ of_nat n / of_nat m <= 1.
Proof.
  intros Hnm Hm. pose proof (of_nat_pos m Hm) as P. split.
  - apply Qle_shift_div_l; [exact P|]. rewrite Qmult_0_l. apply of_nat_nonneg.
  - apply Qle_shift_div_r; [exact P|]. rewrite Qmult_1_l. now apply of_nat_le.
Qed.

Lemma ratio_self (m : nat) : (1 <= m)%nat -> of_nat m / of_nat m == 1.
Proof.
  intros Hm. apply Qmult_inv_r. intros E.
  pose proof (of_nat_pos m Hm) as P. rewrite E in P. discriminate.
Qed.

(** The binary64 number nearest to a hundredth is within 2^-53 of it,
    relatively. *)
Lemma fl_hundredth (k : Z) :
  (0 <= k)%Z ->
  fl (k # 100) - (k # 100) <= (k # 100) * pow2 (-53)
  /\ (k # 100) - fl (k # 100) <= (k # 100) * pow2 (-53).
Proof.
  intros K. destruct (Z.eq_dec k 0) as [->|N].
  - change (fl (0 # 100)) with 0. split; discriminate.
  - apply fl_error.
    apply Qle_trans with (pow2 (-7)); [apply pow2_le; lia|].
    change (pow2 (-7)) with (1 # 128).
    unfold Qle. cbn [Qnum Qden]. lia.
Qed.

(** What line 120 computes from the lengths [m <= n]: a number [x] within
    2^-51, relatively, of the exact percentage, then a hundredth [k/100]
    nearest to [x], then the binary64 number nearest to that hundredth. *)
Lemma percent_computed (m n : nat) :
  (1 <= n)%nat -> (m <= n)%nat -> (Z.of_nat n < 2 ^ 64)%Z ->
  exists (x : Q) (k : Z),
    x - 100 * of_nat m / of_nat n <= 100 * of_nat m / of_nat n * pow2 (-51)
    /\ 100 * of_nat m / of_nat n - x
       <= 100 * of_nat m / of_nat n * pow2 (-51)
    /\ (k # 100) - x <= 1 # 200 /\ x - (k # 100) <= 1 # 200
    /\ round2 (mul (fl (of_nat m / of_nat n)) 100) = fl (k # 100)
    /\ fl (k # 100) - (k # 100) <= (k # 100) * pow2 (-53)
    /\ (k # 100) - fl (k # 100) <= (k # 100) * pow2 (-53).
Proof.
  intros Hn Hmn Hb.
  set (q := of_nat m / of_nat n).
  assert (Pn : 0 < of_nat n) by now apply of_nat_pos.
  assert (E : 100 * of_nat m / of_nat n == 100 * q).
  { unfold q. field. intros C. rewrite C in Pn. discriminate. }
  destruct (ratio_unit_interval m n Hmn Hn) as [Q0 Q1]. fold q in Q0, Q1.
  exists (mul (fl q) 100).
  destruct (round2_nearest_hundredth (mul (fl q) 100))
    as (k & R & A & B & K).
  exists k. rewrite E.
  assert (X0 : 0 <= mul (fl q) 100).
  { unfold mul. apply fl_nonneg.
    pose proof (fl_nonneg q Q0). lra. }
  destruct (fl_hundredth k (K X0)) as [F1 F2].
  cut (mul (fl q) 100 - 100 * q <= 100 * q * pow2 (-51)
       /\ 100 * q - mul (fl q) 100 <= 100 * q * pow2 (-51)).
  { intros [C1 C2]. repeat split; assumption. }
  clear R A B K F1 F2 X0.
  destruct (Nat.eq_dec m 0) as [->|Hm].
  - assert (Z : q == 0) by (unfold q, Qdiv; apply Qmult_0_l).
    unfold mul. rewrite (fl_zero q Z). change (fl (0 * 100)) with 0.
    rewrite Z. split; discriminate.
  - assert (Hq : (1 # 18446744073709551616) <= q).
    { unfold q. apply Qle_shift_div_l; [exact Pn|].
      apply Qle_trans with 1.
      - change (2 ^ 64)%Z with 18446744073709551616%Z in Hb.
        unfold of_nat, Qle, Qmult, inject_Z. cbn [Qnum Qden].
        lia.
      - change 1 with (of_nat 1). apply of_nat_le. lia. }
    assert (P : pow2 (-1022) <= 1 # 18446744073709551616).
    { change (1 # 18446744073709551616) with (pow2 (-64)).
      apply pow2_le. lia. }
    destruct (fl_error q) as [A1 A2]; [lra|].
    change (pow2 (-53)) with (1 # 9007199254740992) in A1, A2.
    destruct (fl_error (fl q * 100)) as [B1 B2]; [lra|].
    change (pow2 (-53)) with (1 # 9007199254740992) in B1, B2.
    change (pow2 (-51)) with (1 # 2251799813685248).
    unfold mul. split; lra.
Qed.

Lemma int_gap (a b : Z) : inject_Z a < inject_Z b + 1 -> (a <= b)%Z.
Proof.
  intros H. change 1 with (inject_Z 1) in H. rewrite <- inject_Z_plus in H.
  rewrite <- Zlt_Qlt in H. lia.
Qed.

Lemma hundredth_Z (k : Z) : (k # 100) == inject_Z k * (1 # 100).
Proof. unfold Qeq, Qmult, inject_Z. cbn. lia. Qed.

Lemma nearest_hundredth_exact (k : Z) (m n : nat) (x : Q) :
  (1 <= n)%nat -> (m <= n)%nat -> (Z.of_nat n <= 10 ^ 11)%Z ->
  x - 100 * of_nat m / of_nat n <= 100 * of_nat m / of_nat n * pow2 (-51) ->
  100 * of_nat m / of_nat n - x <= 100 * of_nat m / of_nat n * pow2 (-51) ->
  (k # 100) - x <= 1 # 200 -> x - (k # 100) <= 1 # 200 ->
  (k # 100) - 100 * of_nat m / of_nat n <= 1 # 200
  /\ 100 * of_nat m / of_nat n - (k # 100) <= 1 # 200.
Proof.
  intros Hn Hmn Hb.
  assert (Pn : 0 < of_nat n) by now apply of_nat_pos.
  assert (Nn : ~ of_nat n == 0) by (intros C; rewrite C in Pn; discriminate).
  set (q := of_nat m / of_nat n).
  assert (E : 100 * of_nat m / of_nat n == 100 * q) by (unfold q; field; exact Nn).
  rewrite !E. clear E.
  destruct (ratio_unit_interval m n Hmn Hn) as [Q0 Q1]. fold q in Q0, Q1.
  assert (QN : q * of_nat n == of_nat m) by (unfold q; field; exact Nn).
  assert (Bn : of_nat n <= 100000000000).
  { unfold of_nat. change 100000000000 with (inject_Z (10 ^ 11)).
    now rewrite <- Zle_Qle. }
  change (pow2 (-51)) with (1 # 2251799813685248).
  rewrite (hundredth_Z k).
  intros X1 X2 A B.
  set (K := inject_Z k) in *.
  set (N := of_nat n) in *. set (M := of_nat m) in *.
  assert (U : 20000 * (1 # 2251799813685248) * N < 1) by lra.
  split.
  - assert (D : (2 * k * Z.of_nat n - 20000 * Z.of_nat m <= Z.of_nat n)%Z).
    { apply int_gap.
      unfold Z.sub. rewrite inject_Z_plus, inject_Z_opp, !inject_Z_mult.
      fold K. change (inject_Z (Z.of_nat n)) with N.
      change (inject_Z (Z.of_nat m)) with M.
      change (inject_Z 2) with 2. change (inject_Z 20000) with 20000.
      rewrite <- QN.
      assert (S : K * (1 # 100) - 100 * q <= (1 # 200) + 100 * (1 # 2251799813685248))
        by lra.
      assert (S' : (K * (1 # 100) - 100 * q) * N
                   <= ((1 # 200) + 100 * (1 # 2251799813685248)) * N)
        by (apply Qmult_le_compat_r; [exact S | lra]).
      clearbody q K N M. lra. }
    rewrite Zle_Qle in D.
    unfold Z.sub in D. rewrite inject_Z_plus, inject_Z_opp, !inject_Z_mult in D.
    fold K in D. change (inject_Z (Z.of_nat n)) with N in D.
    change (inject_Z (Z.of_nat m)) with M in D.
    change (inject_Z 2) with 2 in D. change (inject_Z 20000) with 20000 in D.
    rewrite <- QN in D.
    destruct (Qlt_le_dec (1 # 200) (K * (1 # 100) - 100 * q)) as [G|G]; [|exact G].
    exfalso.
    assert (G' : 0 < (K * (1 # 100) - 100 * q - (1 # 200)) * N)
      by (apply Qmult_lt_0_compat; lra).
    clearbody q K N M. lra.
  - assert (D : (20000 * Z.of_nat m - 2 * k * Z.of_nat n <= Z.of_nat n)%Z).
    { apply int_gap.
      unfold Z.sub. rewrite inject_Z_plus, inject_Z_opp, !inject_Z_mult.
      fold K. change (inject_Z (Z.of_nat n)) with N.
      change (inject_Z (Z.of_nat m)) with M.
      change (inject_Z 2) with 2. change (inject_Z 20000) with 20000.
      rewrite <- QN.
      assert (S : 100 * q - K * (1 # 100) <= (1 # 200) + 100 * (1 # 2251799813685248))
        by lra.
      assert (S' : (100 * q - K * (1 # 100)) * N
                   <= ((1 # 200) + 100 * (1 # 2251799813685248)) * N)
        by (apply Qmult_le_compat_r; [exact S | lra]).
      clearbody q K N M. lra. }
    rewrite Zle_Qle in D.
    unfold Z.sub in D. rewrite inject_Z_plus, inject_Z_opp, !inject_Z_mult in D.
    fold K in D. change (inject_Z (Z.of_nat n)) with N in D.
    change (inject_Z (Z.of_nat m)) with M in D.
    change (inject_Z 2) with 2 in D. change (inject_Z 20000) with 20000 in D.
    rewrite <- QN in D.
    destruct (Qlt_le_dec (1 # 200) (100 * q - K * (1 # 100))) as [G|G]; [|exact G].
    exfalso.
    assert (G' : 0 < (100 * q - K * (1 # 100) - (1 # 200)) * N)
      by (apply Qmult_lt_0_compat; lra).
    clearbody q K N M. lra.
Qed.

(** What line 120 computes from the lengths [m <= n], for at most 10^11
    required skills: the binary64 number nearest to a hundredth that is
    nearest to the exact percentage. *)
Lemma percent_nearest_hundredth (m n : nat) :
  (1 <= n)%nat -> (m <= n)%nat -> (Z.of_nat n <= 10 ^ 11)%Z ->
  exists k : Z,
    (k # 100) - 100 * of_nat m / of_nat n <= 1 # 200
    /\ 100 * of_nat m / of_nat n - (k # 100) <= 1 # 200
    /\ round2 (mul (fl (of_nat m / of_nat n)) 100) = fl (k # 100)
    /\ fl (k # 100) - (k # 100) <= (k # 100) * pow2 (-53)
    /\ (k # 100) - fl (k # 100) <= (k # 100) * pow2 (-53).
Proof.
  intros Hn Hmn Hb.
  assert (Hb' : (Z.of_nat n < 2 ^ 64)%Z).
  { change (10 ^ 11)%Z with 100000000000%Z in Hb.
    change (2 ^ 64)%Z with 18446744073709551616%Z. lia. }
  destruct (percent_computed m n Hn Hmn Hb')
    as (x & k & X1 & X2 & A & B & R & F1 & F2).
  exists k.
  destruct (nearest_hundredth_exact k m n x Hn Hmn Hb X1 X2 A B) as [N1 N2].
  repeat split; assumption.
Qed.

(** Two values on which rounding the exact quotient would differ: 23 of 160
    skills score 14.37, the product being just below 14.375, and a count of
    1 over 40 has confidence 0.03, the quotient being just above 0.025. *)
Example percent_23_of_160 :
  round2 (mul (fl (of_nat 23 / of_nat 160)) 100) = fl (1437 # 100).
Proof. vm_compute. reflexivity. Qed.

Example confidence_1_of_40 :
  round2 (fl (of_nat 1 / of_nat 40)) = fl (3 # 100).
Proof. vm_compute. reflexivity. Qed.

End PyNumFacts.

(** ** The stable descending sort *)

Module PySortFacts.
Import PySort.

Section Facts.
Context {A : Type} (key : A -> Q).

Lemma insert_desc_perm (x : A) (l : list A) :
  Permutation (x :: l) (insert_desc key x l).
Proof.
  induction l as [|y l IH]; simpl; [reflexivity|].
  destruct (Qle_bool (key y) (key x)); [reflexivity|].
  rewrite perm_swap. now constructor.
Qed.

Lemma sorted_reverse_perm (l : list A) :
  Permutation l (sorted_reverse key l).
Proof.
  induction l as [|x l IH]; simpl; [constructor|].
  rewrite <- insert_desc_perm. now constructor.
Qed.

Lemma insert_desc_sorted (x : A) (l : list A) :
  StronglySorted (ge_key key) l -> StronglySorted (ge_key key) (insert_desc key x l).
Proof.
  induction 1 as [|y l S IH F]; simpl.
  - repeat constructor.
  - destruct (Qle_bool (key y) (key x)) eqn:E.
    + apply Qle_bool_iff in E.
      constructor; [now constructor|].
      constructor; [exact E|].
      eapply Forall_impl; [|exact F].
      intros z Hz. unfold ge_key in *. eapply Qle_trans; eauto.
    + constructor; [exact IH|].
      eapply Permutation_Forall; [apply insert_desc_perm|].
      constructor; [|exact F].
      unfold ge_key. apply Qlt_le_weak, Qnot_le_lt.
      intros C. apply Qle_bool_iff in C. congruence.
Qed.

Lemma sorted_reverse_sorted (l : list A) :
  StronglySorted (ge_key key) (sorted_reverse key l).
Proof.
  induction l as [|x l IH]; simpl; [constructor|].
  now apply insert_desc_sorted.
Qed.

(** Inserting moves the new element only past elements of another key. *)
Lemma insert_desc_filter (p : Q) (x : A) (l : list A) :
  filter (has_key key p) (insert_desc key x l) = filter (has_key key p) (x :: l).
Proof.
  induction l as [|y l IH]; [reflexivity|].
  cbn [insert_desc].
  destruct (Qle_bool (key y) (key x)) eqn:E; [reflexivity|].
  cbn [filter] in *. rewrite IH.
  destruct (has_key key p x) eqn:Hx, (has_key key p y) eqn:Hy; try reflexivity.
  exfalso. unfold has_key in *.
  apply Qeq_bool_iff in Hx, Hy.
  assert (L : Qle_bool (key y) (key x) = true).
  { apply Qle_bool_iff. rewrite Hx, Hy. apply Qle_refl. }
  congruence.
Qed.

Lemma sorted_reverse_filter (p : Q) (l : list A) :
  filter (has_key key p) (sorted_reverse key l) = filter (has_key key p) l.
Proof.
  induction l as [|x l IH]; [reflexivity|].
  cbn [sorted_reverse fold_right].
  rewrite insert_desc_filter. cbn [filter].
  fold (sorted_reverse key l). now rewrite IH.
Qed.

Lemma has_key_self (a : A) : has_key key (key a) a = true.
Proof. unfold has_key. apply Qeq_bool_iff. reflexivity. Qed.

Lemma in_filter_has_key (p : Q) (a : A) (l l' : list A) :
  filter (has_key key p) l = filter (has_key key p) l' ->
  In a l -> has_key key p a = true -> In a l'.
Proof.
  intros E I H.
  assert (F : In a (filter (has_key key p) l)) by (apply filter_In; now split).
  rewrite E in F. now apply filter_In in F.
Qed.

(** Two lists in descending key order with the same elements of every key,
    in the same order, are the same list: what [sorted] returns is fixed by
    its being sorted and stable. *)
Lemma stable_sorted_unique (l1 l2 : list A) :
  StronglySorted (ge_key key) l1 -> StronglySorted (ge_key key) l2 ->
  (forall p, filter (has_key key p) l1 = filter (has_key key p) l2) ->
  l1 = l2.
Proof.
  intros S1. revert l2.
  induction S1 as [|a l1 S1 IH F1]; intros l2 S2 H.
  - destruct l2 as [|b l2]; [reflexivity|].
    specialize (H (key b)). cbn [filter] in H.
    rewrite has_key_self in H. discriminate H.
  - destruct S2 as [|b l2 S2 F2].
    + specialize (H (key a)). cbn [filter] in H.
      rewrite has_key_self in H. discriminate H.
    + assert (Lba : (key b <= key a)%Q).
      { assert (I : In b (a :: l1)).
        { apply (in_filter_has_key (key b) b (b :: l2));
            [symmetry; apply H | now left | apply has_key_self]. }
        destruct I as [->|I]; [apply Qle_refl|].
        rewrite Forall_forall in F1. exact (F1 b I). }
      assert (Lab : (key a <= key b)%Q).
      { assert (I : In a (b :: l2)).
        { apply (in_filter_has_key (key a) a (a :: l1));
            [apply H | now left | apply has_key_self]. }
        destruct I as [->|I]; [apply Qle_refl|].
        rewrite Forall_forall in F2. exact (F2 a I). }
      assert (Kb : has_key key (key a) b = true).
      { unfold has_key. apply Qeq_bool_iff. now apply Qle_antisym. }
      pose proof (H (key a)) as Ha. cbn [filter] in Ha.
      rewrite has_key_self, Kb in Ha. injection Ha as <- _.
      f_equal. apply IH; [exact S2|].
      intros p. specialize (H p). cbn [filter] in H.
      destruct (has_key key p a); [now injection H | exact H].
Qed.

(** So the model is every stable descending sort. *)
Lemma sorted_reverse_unique (l l' : list A) :
  StronglySorted (ge_key key) l' ->
  (forall p, filter (has_key key p) l' = filter (has_key key p) l) ->
  l' = sorted_reverse key l.
Proof.
  intros S H. apply stable_sorted_unique;
    [exact S | apply sorted_reverse_sorted|].
  intros p. now rewrite H, sorted_reverse_filter.
Qed.

End Facts.

End PySortFacts.

(** ** Dicts *)

Module DictFacts.
Import Dict.

Section Facts.
Context {V : Type}.
Implicit Types (d : t V) (k : string) (v : V) (kvs : list (string * V)).

Lemma set_fresh d k v : ~ In k (keys d) -> set d k v = (d ++ [(k, v)])%list.
Proof.
  induction d as [|[k' v'] d IH]; simpl; intros N; [reflexivity|].
  destruct (String.eqb_spec k k') as [->|_]; [tauto|].
  rewrite IH; tauto.
Qed.

Lemma in_keys_set d k v k' :
  In k' (keys (set d k v)) <-> k' = k \/ In k' (keys d).
Proof.
  induction d as [|[k0 v0] d IH]; simpl.
  - intuition congruence.
  - destruct (String.eqb_spec k k0) as [->|_]; simpl.
    + intuition congruence.
    + rewrite IH. intuition congruence.
Qed.

Lemma in_set d k v k' v' :
  In (k', v') (set d k v) -> (k' = k /\ v' = v) \/ In (k', v') d.
Proof.
  induction d as [|[k0 v0] d IH]; simpl.
  - intros [E|[]]. left. split; congruence.
  - destruct (String.eqb_spec k k0) as [->|_]; simpl.
    + intros [E|H]; [left; split; congruence | right; now right].
    + intros [E|H]; [right; now left|].
      destruct (IH H) as [?|?]; [now left | right; now right].
Qed.

Lemma NoDup_keys_set d k v : NoDup (keys d) -> NoDup (keys (set d k v)).
Proof.
  induction d as [|[k0 v0] d IH]; simpl; intros N.
  - constructor; [intros []|constructor].
  - inversion N as [|? ? N1 N2]; subst.
    destruct (String.eqb_spec k k0) as [->|D]; simpl.
    + now constructor.
    + constructor; [|now apply IH].
      change (~ In k0 (keys (set d k v))).
      rewrite in_keys_set. intros [E|I]; [congruence | contradiction].
Qed.

Lemma in_keys_build kvs acc k :
  In k (keys (build acc kvs)) <-> In k (keys acc) \/ In k (map fst kvs).
Proof.
  revert acc. induction kvs as [|[k0 v0] kvs IH]; intros acc.
  - simpl. tauto.
  - change (build acc ((k0, v0) :: kvs)) with (build (set acc k0 v0) kvs).
    rewrite IH, in_keys_set. simpl. intuition.
Qed.

Lemma in_build kvs acc k v :
  In (k, v) (build acc kvs) -> In (k, v) acc \/ In (k, v) kvs.
Proof.
  revert acc. induction kvs as [|[k0 v0] kvs IH]; intros acc.
  - simpl. tauto.
  - change (build acc ((k0, v0) :: kvs)) with (build (set acc k0 v0) kvs).
    intros H. apply IH in H. simpl. destruct H as [H|H]; [|tauto].
    apply in_set in H.
    destruct H as [[-> ->]|H]; tauto.
Qed.

Lemma NoDup_keys_build kvs acc :
  NoDup (keys acc) -> NoDup (keys (build acc kvs)).
Proof.
  revert acc. induction kvs as [|[k0 v0] kvs IH]; intros acc N.
  - exact N.
  - change (build acc ((k0, v0) :: kvs)) with (build (set acc k0 v0) kvs).
    apply IH. now apply NoDup_keys_set.
Qed.

Lemma in_keys_of_items kvs k :
  In k (keys (of_items kvs)) <-> In k (map fst kvs).
Proof.
  unfold of_items.
  rewrite in_keys_build. simpl. tauto.
Qed.

Lemma in_of_items kvs k v : In (k, v) (of_items kvs) -> In (k, v) kvs.
Proof.
  unfold of_items.
  intros H. apply in_build in H. destruct H as [[]|H]. exact H.
Qed.

Lemma NoDup_keys_of_items kvs : NoDup (keys (of_items kvs)).
Proof.
  unfold of_items.
  apply NoDup_keys_build. constructor.
Qed.

Lemma get_default_empty k v : get_default (@empty V) k v = v.
Proof. reflexivity. Qed.

End Facts.

(** *** [Counter] *)

Lemma get_default_in (d : t nat) (k : string) :
  In k (keys d) -> In (k, get_default d k 0) d.
Proof.
  unfold get_default.
  induction d as [|[k0 c0] d IH]; simpl; [tauto|].
  destruct (String.eqb_spec k k0) as [->|D].
  - intros _. now left.
  - intros [E|I]; [congruence|]. right. now apply IH.
Qed.

Lemma incr_positive (d : t nat) (k : string) :
  Forall (fun kc => 1 <= snd kc) d -> Forall (fun kc => 1 <= snd kc) (incr d k).
Proof.
  intros F. apply Forall_forall. intros [k' c'] H.
  apply in_set in H. destruct H as [[_ ->]|H]; simpl; [lia|].
  rewrite Forall_forall in F. exact (F _ H).
Qed.

Lemma incr_nonempty (d : t nat) (k : string) : incr d k <> [].
Proof.
  unfold incr. destruct d as [|[k0 c0] d]; simpl; [discriminate|].
  destruct (k =? k0)%string; discriminate.
Qed.

Lemma Counter_invariant (l : list string) (acc : t nat) :
  NoDup (keys acc) -> Forall (fun kc => 1 <= snd kc) acc ->
  let d := fold_left incr l acc in
  NoDup (keys d) /\ Forall (fun kc => 1 <= snd kc) d
  /\ (forall k, In k (keys d) <-> In k (keys acc) \/ In k l)
  /\ (d = [] -> acc = [] /\ l = []).
Proof.
  revert acc. induction l as [|x l IH]; intros acc N P; simpl.
  - repeat split; auto; tauto.
  - destruct (IH (incr acc x)) as (N' & P' & K' & E').
    + now apply NoDup_keys_set.
    + now apply incr_positive.
    + split; [exact N'|]. split; [exact P'|]. split.
      * intros k. rewrite K'. unfold incr. rewrite in_keys_set.
        simpl. intuition.
      * intros H. apply E' in H. destruct H as [H _].
        now apply incr_nonempty in H.
Qed.

Lemma NoDup_keys_Counter (l : list string) : NoDup (keys (Counter l)).
Proof. apply (Counter_invariant l empty); constructor. Qed.

Lemma Counter_positive (l : list string) :
  Forall (fun kc => 1 <= snd kc) (Counter l).
Proof. apply (Counter_invariant l empty); constructor. Qed.

Lemma in_keys_Counter (l : list string) (k : string) :
  In k (keys (Counter l)) <-> In k l.
Proof.
  destruct (Counter_invariant l empty (NoDup_nil _) (Forall_nil _))
    as (_ & _ & K & _).
  rewrite K. simpl. tauto.
Qed.

Lemma Counter_empty (l : list string) : Counter l = [] -> l = [].
Proof.
  destruct (Counter_invariant l empty (NoDup_nil _) (Forall_nil _))
    as (_ & _ & _ & E).
  intros H. now apply E.
Qed.

End DictFacts.

(** ** Running statements *)

Module PyFacts.
Import Py.

(** A loop whose body always returns, without touching the state, returns
    the fold of the values. *)
Lemma fold_m_pure {A B} (body : B -> A -> M B) (f : B -> A -> B)
    (l : list A) :
  (forall acc x s, In x l -> body acc x s = (Ret (f acc x), s)) ->
  forall acc s, fold_m body l acc s = (Ret (fold_left f l acc), s).
Proof.
  induction l as [|x l IH]; intros Hb acc s; simpl; [reflexivity|].
  unfold bind. rewrite Hb by now left.
  apply IH. intros acc' y s' Hy. apply Hb. now right.
Qed.

Lemma truediv_run (x y : Q) (s : state) :
  Qeq_bool y 0 = false ->
  PyNum.truediv x y s = (Ret (PyNum.fl (x / y)%Q), s).
Proof. intros H. unfold PyNum.truediv. now rewrite H. Qed.

Lemma fold_left_append {A B} (g : A -> B) (l : list A) (acc : list B) :
  fold_left (fun acc x => (acc ++ [g x])%list) l acc = (acc ++ map g l)%list.
Proof.
  revert acc. induction l as [|x l IH]; intros acc; simpl.
  - now rewrite app_nil_r.
  - rewrite IH, <- app_assoc. reflexivity.
Qed.

End PyFacts.

(** ** The matcher and the planner return, and what they return *)

Section MatcherRuns.
Variable catalog : Dict.t (list string).
Variable user_skills : list string.

Lemma score_role_run (role : string) (req_skills : list string)
    (s : Py.state) :
  score_role user_skills role req_skills s
  = (Py.Ret (score_entry user_skills role req_skills), s).
Proof.
  unfold score_role, score_entry.
  destruct req_skills as [|r req]; [reflexivity|].
  unfold Py.bind.
  rewrite PyFacts.truediv_run; [reflexivity|].
  apply (PyNumFacts.of_nat_nonzero (List.length (r :: req))). simpl. lia.
Qed.

Lemma scores_unsorted_run (s : Py.state) :
  scores_unsorted catalog user_skills s
  = (Py.Ret (map (fun rr => score_entry user_skills (fst rr) (snd rr))
                 catalog), s).
Proof.
  unfold scores_unsorted.
  rewrite (PyFacts.fold_m_pure _
             (fun acc rr =>
                (acc ++ [score_entry user_skills (fst rr) (snd rr)])%list)).
  - now rewrite PyFacts.fold_left_append.
  - intros acc [role req] s' _. unfold Py.bind.
    now rewrite score_role_run.
Qed.

Lemma all_roles_scores_run (s : Py.state) :
  all_roles_scores catalog user_skills s
  = (Py.Ret (PySort.sorted_reverse Match_pct
               (map (fun rr => score_entry user_skills (fst rr) (snd rr))
                    catalog)), s).
Proof.
  unfold all_roles_scores, Py.bind. now rewrite scores_unsorted_run.
Qed.

End MatcherRuns.

Lemma plan_inner (skills : list string) (acc : list PlanItem) :
  fold_left (fun acc' skill => (acc' ++ [plan_item skill])%list) skills acc
  = (acc ++ map plan_item skills)%list.
Proof. apply PyFacts.fold_left_append. Qed.

Lemma plan_outer (entries : list RoleScore) (acc : list PlanItem) :
  fold_left
    (fun acc entry =>
       fold_left (fun acc' skill => (acc' ++ [plan_item skill])%list)
                 (Missing_Skills entry) acc)
    entries acc
  = (acc ++ flat_map (fun e => map plan_item (Missing_Skills e)) entries)%list.
Proof.
  revert acc. induction entries as [|e entries IH]; intros acc; simpl.
  - now rewrite app_nil_r.
  - rewrite IH, plan_inner, <- app_assoc. reflexivity.
Qed.

(** ** The role matcher *)

Lemma matched_missing (user_skills req_skills : list string) :
  filter (fun s => negb (PyStr.mem s
            (filter (fun s' => PyStr.mem s' user_skills) req_skills)))
         req_skills
  = filter (fun s => negb (PyStr.mem s user_skills)) req_skills.
Proof.
  apply filter_ext_in. intros a Ha. f_equal.
  unfold PyStr.mem at 1.
  destruct (PyStr.mem a user_skills) eqn:E.
  - apply existsb_exists. exists a. split; [|apply String.eqb_refl].
    apply filter_In. now split.
  - apply not_true_is_false. intros H.
    apply existsb_exists in H. destruct H as (b & Hb & Eb).
    apply String.eqb_eq in Eb. subst b.
    apply filter_In in Hb. destruct Hb as [_ Hb]. congruence.
Qed.

Lemma len_of_nat {A} (l : list A) : PyNum.len l = PyNum.of_nat (List.length l).
Proof. reflexivity. Qed.

(** C1: every role of the catalog has an entry in the scores, and computing
    them never raises.  The match percentage of a role without required
    skills is 0.  Otherwise it is what line 120 computes in binary64 numbers:
    the quotient of the two lengths, times 100, rounded to two decimals.
    For at most 10^11 required skills that number is pinned from outside the
    rounding function: some hundredth [k/100] is at most half a hundredth
    from the exact percentage 100 * matched / required, and the match
    percentage is the binary64 number nearest to [k/100], within 2^-53 of
    it, relatively. *)
Theorem score_roles_match_percentage
    (catalog : Dict.t (list string)) (user_skills : list string)
    (role : string) (req_skills : list string) (s : Py.state) :
  In (role, req_skills) catalog ->
  exists scores e,
    all_roles_scores catalog user_skills s = (Py.Ret scores, s)
    /\ List.length scores = List.length catalog
    /\ In e scores
    /\ Role e = role
    /\ Matched_Skills e = filter (fun sk => PyStr.mem sk user_skills) req_skills
    /\ Missing_Skills e
       = filter (fun sk => negb (PyStr.mem sk user_skills)) req_skills
    /\ match req_skills with
       | [] => Match_pct e = 0%Q
       | _ =>
           Match_pct e
           = PyNum.round2
               (PyNum.mul
                  (PyNum.fl (PyNum.len (Matched_Skills e)
                             / PyNum.len req_skills)) 100)
           /\ ((Z.of_nat (List.length req_skills) <= 10 ^ 11)%Z ->
               match_pct_pinned (List.length (Matched_Skills e))
                 (List.length req_skills) (Match_pct e))
       end.
Proof.
  intros Hin. rewrite all_roles_scores_run.
  eexists. exists (score_entry user_skills role req_skills).
  split; [reflexivity|]. split.
  - rewrite <- (Permutation_length (PySortFacts.sorted_reverse_perm _ _)).
    apply length_map.
  - split.
    + eapply Permutation_in; [apply PySortFacts.sorted_reverse_perm|].
      apply in_map_iff. exists (role, req_skills). now split.
    + cbn [score_entry Role Matched_Skills Missing_Skills Match_pct].
      repeat split; try reflexivity.
      * apply matched_missing.
      * destruct req_skills as [|r req]; [reflexivity|].
        split; [reflexivity|]. intros Hb.
        set (req_skills := r :: req) in *.
        unfold match_pct_pinned. rewrite !len_of_nat.
        destruct (PyNumFacts.percent_nearest_hundredth
                    (List.length
                       (filter (fun sk => PyStr.mem sk user_skills)
                          req_skills))
                    (List.length req_skills))
          as (k & N1 & N2 & R & F1 & F2);
          [cbn; lia | apply List.filter_length_le | exact Hb |].
        exists k. rewrite R. repeat split; assumption.
Qed.

Lemma score_roles_match_percentage_witness :
  In ("Data Scientist",
      ["Python"; "SQL"; "Machine Learning"; "Statistics"; "Data Visualization"])
     role_skills
  /\ exists scores e,
       all_roles_scores role_skills ["Python"; "SQL"; "Statistics"] init
       = (Py.Ret scores, init)
       /\ List.length scores = List.length role_skills
       /\ In e scores
       /\ Role e = "Data Scientist"
       /\ Matched_Skills e
          = filter (fun sk => PyStr.mem sk ["Python"; "SQL"; "Statistics"])
              ["Python"; "SQL"; "Machine Learning"; "Statistics";
               "Data Visualization"]
       /\ Missing_Skills e
          = filter (fun sk =>
                      negb (PyStr.mem sk ["Python"; "SQL"; "Statistics"]))
              ["Python"; "SQL"; "Machine Learning"; "Statistics";
               "Data Visualization"]
       /\ Match_pct e
          = PyNum.round2
              (PyNum.mul
                 (PyNum.fl
                    (PyNum.len (Matched_Skills e)
                     / PyNum.len ["Python"; "SQL"; "Machine Learning";
                                  "Statistics"; "Data Visualization"])) 100)
       /\ ((5 <= 10 ^ 11)%Z ->
           match_pct_pinned (List.length (Matched_Skills e)) 5 (Match_pct e)).
Proof.
  split.
  - simpl. left. reflexivity.
  - apply (score_roles_match_percentage role_skills
             ["Python"; "SQL"; "Statistics"] "Data Scientist"
             ["Python"; "SQL"; "Machine Learning"; "Statistics";
              "Data Visualization"] init).
    simpl. left. reflexivity.
Defined.

(** C5: the scores are in non-increasing order of match percentage, and the
    roles of any one percentage follow each other as in the catalog: the
    entries are those of the loop over the catalog, whose roles are the keys
    of the catalog in order, and the sort keeps the order of equal keys. *)
Theorem all_roles_scores_sorted_stable
    (catalog : Dict.t (list string)) (user_skills : list string)
    (s : Py.state) :
  exists unsorted scores,
    scores_unsorted catalog user_skills s = (Py.Ret unsorted, s)
    /\ map Role unsorted = Dict.keys catalog
    /\ all_roles_scores catalog user_skills s = (Py.Ret scores, s)
    /\ Permutation unsorted scores
    /\ StronglySorted (fun a b => (Match_pct b <= Match_pct a)%Q) scores
    /\ forall p : Q,
         filter (fun e => Qeq_bool (Match_pct e) p) scores
         = filter (fun e => Qeq_bool (Match_pct e) p) unsorted.
Proof.
  rewrite all_roles_scores_run, scores_unsorted_run.
  do 2 eexists. split; [reflexivity|]. split.
  - unfold Dict.keys. rewrite map_map. apply map_ext. now intros [r q].
  - split; [reflexivity|]. split; [apply PySortFacts.sorted_reverse_perm|].
    split; [apply PySortFacts.sorted_reverse_sorted|].
    intros p. apply PySortFacts.sorted_reverse_filter.
Qed.

(** ** The planner *)

Lemma plan_flat_map (scores : list RoleScore) :
  plan scores
  = flat_map (fun e => map plan_item (Missing_Skills e)) (firstn 5 scores).
Proof. unfold plan. now rewrite plan_outer, app_nil_l. Qed.

(** C7: the plan reads the first five scores; for each of them in turn and
    for each of its missing skills in order it has one item, with week 1 and
    the one resource naming the skill; nothing is merged, so a skill is in the
    plan as often as it is missing among these roles. *)
Theorem plan_role_major (scores : list RoleScore) :
  plan scores
  = flat_map
      (fun e =>
         map (fun skill =>
                mkPlanItem 1 skill ["Coursera/YouTube Course on " ++ skill])
             (Missing_Skills e))
      (firstn 5 scores)
  /\ List.length (plan scores)
     = list_sum (map (fun e => List.length (Missing_Skills e))
                     (firstn 5 scores))
  /\ forall skill,
       List.length (filter (fun it => Skill it =? skill) (plan scores))
       = list_sum
           (map (fun e =>
                   List.length (filter (fun sk => sk =? skill)
                                       (Missing_Skills e)))
                (firstn 5 scores)).
Proof.
  unfold plan. rewrite plan_outer, app_nil_l.
  split; [reflexivity|].
  generalize (firstn 5 scores) as l. intros l. split.
  - induction l as [|e l IH]; [reflexivity|].
    cbn [flat_map map list_sum]. rewrite length_app, length_map, IH.
    reflexivity.
  - intros skill.
    assert (E : forall sks,
               List.length (filter (fun it => Skill it =? skill)
                                   (map plan_item sks))
               = List.length (filter (fun sk => sk =? skill) sks)).
    { induction sks as [|sk sks IHs]; [reflexivity|].
      cbn [map filter plan_item Skill].
      destruct (sk =? skill); cbn [List.length]; now rewrite IHs. }
    induction l as [|e l IH]; [reflexivity|].
    cbn [flat_map map]. rewrite filter_app, length_app, IH, E.
    reflexivity.
Qed.

(** ** Strings *)

Module PyStrFacts.
Import PyStr.

Lemma append_assoc (a b c : string) : (a ++ b) ++ c = a ++ (b ++ c).
Proof. induction a as [|x a IH]; simpl; [reflexivity | now rewrite IH]. Qed.

Lemma append_cons (c : ascii) (a b : string) :
  String c a ++ b = String c (a ++ b).
Proof. reflexivity. Qed.

Lemma append_empty_r (a : string) : a ++ "" = a.
Proof. induction a as [|x a IH]; simpl; [reflexivity | now rewrite IH]. Qed.

(** *** [split] *)

Lemma split_nonempty (sep : ascii) (s : string) : split sep s <> [].
Proof.
  destruct s as [|c s]; simpl; [discriminate|].
  destruct (Ascii.eqb c sep); [discriminate|].
  destruct (split sep s); discriminate.
Qed.

Lemma join_cons (sep : ascii) (f : string) (l : list string) :
  l <> [] -> join sep (f :: l) = f ++ String sep (join sep l).
Proof. destruct l; [congruence | reflexivity]. Qed.

(** Joining the fragments with the separator gives the string back. *)
Lemma join_split (sep : ascii) (s : string) : join sep (split sep s) = s.
Proof.
  induction s as [|c s IH]; [reflexivity|].
  cbn [split]. destruct (Ascii.eqb_spec c sep) as [->|_].
  - rewrite join_cons by apply split_nonempty. simpl. now rewrite IH.
  - pose proof (split_nonempty sep s) as N.
    destruct (split sep s) as [|f fs]; [congruence|].
    destruct fs as [|g fs].
    + simpl in *. now rewrite IH.
    + rewrite join_cons by discriminate.
      rewrite join_cons in IH by discriminate.
      cbn [append]. now rewrite IH.
Qed.

(** No fragment holds the separator. *)
Lemma split_no_sep (sep : ascii) (s : string) :
  Forall (fun f => occurs sep f = false) (split sep s).
Proof.
  induction s as [|c s IH]; [repeat constructor|].
  cbn [split]. destruct (Ascii.eqb c sep) eqn:E.
  - constructor; [reflexivity | exact IH].
  - destruct (split sep s) as [|f fs]; [repeat constructor; simpl; now rewrite E|].
    inversion IH as [|? ? Hf Hfs]; subst.
    constructor; [|exact Hfs]. simpl. now rewrite E, Hf.
Qed.

(** *** [strip] *)

Lemma lstrip_spec (s : string) :
  exists ws, s = ws ++ lstrip s /\ all_space ws = true.
Proof.
  induction s as [|c s (ws & E & W)]; [now exists ""|].
  simpl. destruct (isspace c) eqn:C.
  - exists (String c ws). simpl. rewrite C, W. split; [congruence | reflexivity].
  - now exists "".
Qed.

Lemma lstrip_first (s : string) (c : ascii) :
  first_char (lstrip s) = Some c -> isspace c = false.
Proof.
  induction s as [|x s IH]; simpl; [discriminate|].
  destruct (isspace x) eqn:X; [exact IH|].
  simpl. intros [= <-]. exact X.
Qed.

Lemma rstrip_spec (s : string) :
  exists ws, s = rstrip s ++ ws /\ all_space ws = true.
Proof.
  induction s as [|c s (ws & E & W)]; [now exists ""|].
  simpl. destruct (rstrip s) as [|a r] eqn:R.
  - simpl in E. subst s. destruct (isspace c) eqn:C.
    + exists (String c ws). simpl. now rewrite C, W.
    + now exists ws.
  - exists ws. simpl. split; [f_equal; exact E | exact W].
Qed.

Lemma rstrip_last (s : string) (c : ascii) :
  last_char (rstrip s) = Some c -> isspace c = false.
Proof.
  induction s as [|x s IH]; simpl; [discriminate|].
  destruct (rstrip s) as [|a r] eqn:R.
  - destruct (isspace x) eqn:X; simpl; [discriminate|].
    intros [= <-]. exact X.
  - exact IH.
Qed.

Lemma rstrip_first (s : string) (c : ascii) :
  first_char (rstrip s) = Some c -> first_char s = Some c.
Proof.
  destruct (rstrip_spec s) as (ws & E & _).
  destruct (rstrip s) as [|a r]; simpl; [discriminate|].
  intros [= <-]. rewrite E. reflexivity.
Qed.

(** [strip] removes white space, and only that, from both ends, and leaves
    none at either end. *)
Lemma strip_spec (s : string) :
  (exists ws1 ws2,
      s = ws1 ++ strip s ++ ws2
      /\ all_space ws1 = true /\ all_space ws2 = true)
  /\ (forall c, first_char (strip s) = Some c -> isspace c = false)
  /\ (forall c, last_char (strip s) = Some c -> isspace c = false).
Proof.
  unfold strip. split; [|split].
  - destruct (lstrip_spec s) as (ws1 & E1 & W1).
    destruct (rstrip_spec (lstrip s)) as (ws2 & E2 & W2).
    exists ws1, ws2. repeat split; auto.
    rewrite <- E2. exact E1.
  - intros c H. apply rstrip_first in H. now apply lstrip_first in H.
  - intros c. apply rstrip_last.
Qed.

Lemma all_space_app (a b : string) :
  all_space (a ++ b) = all_space a && all_space b.
Proof.
  induction a as [|c a IH]; simpl; [reflexivity|].
  now rewrite IH, andb_assoc.
Qed.

(** Exactly the fragments of white space strip to the empty string. *)
Lemma strip_empty (s : string) : strip s = "" <-> all_space s = true.
Proof.
  split.
  - intros E. destruct (strip_spec s) as ((ws1 & ws2 & D & W1 & W2) & _).
    rewrite E in D. rewrite D. simpl. now rewrite all_space_app, W1, W2.
  - intros W. unfold strip.
    assert (L : lstrip s = "").
    { induction s as [|c s IH]; [reflexivity|]. simpl in *.
      apply andb_prop in W. destruct W as [C W]. rewrite C. now apply IH. }
    now rewrite L.
Qed.

Lemma truthy_nonempty (s : string) : truthy s = true <-> s <> "".
Proof. destruct s; simpl; split; congruence. Qed.

End PyStrFacts.

(** ** The manual entry *)

(** C10: the keys of the mapping of a manual entry are the stripped
    comma-separated fragments that are not empty after stripping, each once;
    stripping takes off exactly the white space at both ends, so that the
    fragments dropped are the empty ones and those of white space only; every
    value is 1.0; the script uses this mapping when nothing is uploaded; and
    the entry "a, ,b," gives the keys "a" and "b". *)
Theorem manual_entry_mapping (manual_skills : string) :
  (forall k,
      In k (Dict.keys (manual_skills_conf manual_skills))
      <-> exists frag,
            In frag (PyStr.split "," manual_skills)
            /\ k = PyStr.strip frag /\ k <> "")
  /\ NoDup (Dict.keys (manual_skills_conf manual_skills))
  /\ (forall k v, In (k, v) (manual_skills_conf manual_skills) -> v = 1%Q)
  /\ PyStr.join "," (PyStr.split "," manual_skills) = manual_skills
  /\ Forall (fun frag => PyStr.occurs "," frag = false)
            (PyStr.split "," manual_skills)
  /\ (forall frag,
        (exists ws1 ws2,
            frag = ws1 ++ PyStr.strip frag ++ ws2
            /\ PyStr.all_space ws1 = true /\ PyStr.all_space ws2 = true)
        /\ (forall c, PyStr.first_char (PyStr.strip frag) = Some c ->
                      PyStr.isspace c = false)
        /\ (forall c, PyStr.last_char (PyStr.strip frag) = Some c ->
                      PyStr.isspace c = false))
  /\ (forall frag, PyStr.strip frag = "" <-> PyStr.all_space frag = true)
  /\ (forall nlp catalog s,
        user_skills_conf nlp catalog None manual_skills s
        = (Py.Ret (manual_skills_conf manual_skills), s))
  /\ manual_skills_conf "a, ,b," = [("a", 1%Q); ("b", 1%Q)].
Proof.
  split; [|split; [|split; [|split; [|split; [|split; [|split; [|split]]]]]]].
  - intros k. unfold manual_skills_conf.
    rewrite DictFacts.in_keys_of_items, map_map. cbn [fst].
    rewrite in_map_iff. split.
    + intros (frag & <- & H). apply filter_In in H. destruct H as [H T].
      exists frag. repeat split; auto. now apply PyStrFacts.truthy_nonempty.
    + intros (frag & H & -> & N). exists frag. split; [reflexivity|].
      apply filter_In. split; [exact H|]. now apply PyStrFacts.truthy_nonempty.
  - apply DictFacts.NoDup_keys_of_items.
  - intros k v H. apply DictFacts.in_of_items in H.
    apply in_map_iff in H. destruct H as (frag & [= _ <-] & _). reflexivity.
  - apply PyStrFacts.join_split.
  - apply PyStrFacts.split_no_sep.
  - apply PyStrFacts.strip_spec.
  - apply PyStrFacts.strip_empty.
  - intros nlp catalog s. unfold user_skills_conf.
    destruct manual_skills; reflexivity.
  - reflexivity.
Qed.

(** ** Reading a PDF *)

Section ParsePdf.

Lemma concat_empty_cons (x : string) (l : list string) :
  String.concat "" (x :: l) = x ++ String.concat "" l.
Proof.
  destruct l as [|y l]; simpl; [now rewrite PyStrFacts.append_empty_r|].
  reflexivity.
Qed.

Lemma pages_text_cons (x : string) (texts : list string) :
  pages_text (x :: texts) = x ++ String "010" "" ++ pages_text texts.
Proof.
  unfold pages_text. cbn [map].
  now rewrite concat_empty_cons, PyStrFacts.append_assoc.
Qed.

Lemma for_each_page_parsed (x : string) (l : list (Py.exn + string))
    (t0 : string) (errs : list string) :
  Py.for_each (inr x :: l)
    (fun page =>
       extracted <- Py.call page ;;
       t <- Py.get_text ;;
       Py.set_text (t ++ extracted ++ String "010" ""))
    (Py.mkState t0 errs)
  = Py.for_each l
      (fun page =>
         extracted <- Py.call page ;;
         t <- Py.get_text ;;
         Py.set_text (t ++ extracted ++ String "010" ""))
      (Py.mkState (t0 ++ x ++ String "010" "") errs).
Proof. reflexivity. Qed.

(** The loop of [parse_pdf] over pages that parse, then any others. *)
Lemma for_each_parsed (texts : list string) (rest : list (Py.exn + string))
    (t0 : string) (errs : list string) :
  Py.for_each (map inr texts ++ rest)%list
    (fun page =>
       extracted <- Py.call page ;;
       t <- Py.get_text ;;
       Py.set_text (t ++ extracted ++ String "010" ""))
    (Py.mkState t0 errs)
  = Py.for_each rest
      (fun page =>
         extracted <- Py.call page ;;
         t <- Py.get_text ;;
         Py.set_text (t ++ extracted ++ String "010" ""))
      (Py.mkState (t0 ++ pages_text texts) errs).
Proof.
  revert t0. induction texts as [|x texts IH]; intros t0.
  - unfold pages_text. simpl. now rewrite PyStrFacts.append_empty_r.
  - cbn [map app].
    rewrite for_each_page_parsed, IH, pages_text_cons.
    now rewrite !PyStrFacts.append_assoc.
Qed.

Lemma parse_pdf_all_pages ty (texts : list string) dx rd (s : Py.state) :
  parse_pdf (mkUpload ty (inr (map inr texts)) dx rd) s
  = (Py.Ret (pages_text texts),
     Py.mkState (pages_text texts) (Py.st_errors s)).
Proof.
  unfold parse_pdf, Py.bind, Py.try_except, Py.set_text. cbn [PdfReader Py.call Py.ret].
  rewrite <- (app_nil_r (map inr texts)).
  rewrite for_each_parsed. reflexivity.
Qed.

Lemma parse_pdf_failing_page ty (texts : list string) (e : Py.exn)
    (rest : list (Py.exn + string)) dx rd (s : Py.state) :
  parse_pdf (mkUpload ty (inr (map inr texts ++ inl e :: rest)%list) dx rd) s
  = (Py.Ret (pages_text texts),
     Py.mkState (pages_text texts)
       (Py.st_errors s ++ [("PDF parsing error: " ++ Py.str e)%string])%list).
Proof.
  unfold parse_pdf, Py.bind, Py.try_except, Py.set_text. cbn [PdfReader Py.call Py.ret].
  rewrite for_each_parsed. reflexivity.
Qed.

Lemma parse_pdf_reader_fails ty (e : Py.exn) dx rd (s : Py.state) :
  parse_pdf (mkUpload ty (inl e) dx rd) s
  = (Py.Ret "",
     Py.mkState "" (Py.st_errors s ++ [("PDF parsing error: " ++ Py.str e)%string])%list).
Proof. reflexivity. Qed.

(** Pages all parse, or there is a first one that does not. *)
Lemma pages_cases (pages : list (Py.exn + string)) :
  (exists texts, pages = map inr texts)
  \/ (exists texts e rest, pages = (map inr texts ++ inl e :: rest)%list).
Proof.
  induction pages as [|[e|t] pages IH].
  - left. now exists [].
  - right. now exists [], e, pages.
  - destruct IH as [(texts & ->)|(texts & e & rest & ->)].
    + left. now exists (t :: texts).
    + right. now exists (t :: texts), e, rest.
Qed.

(** C9: [parse_pdf] returns for every file, with the text it returns left
    in its variable and at most one message shown; when every page parses
    the text is the texts of the pages, a newline after each, and nothing
    is shown; when a page throws after some pages parsed, the text is that
    of the pages before it and the error is shown; when the reader itself
    throws, the text is empty and the error is shown. *)
Theorem parse_pdf_never_raises :
  (forall file s, exists text shown,
      parse_pdf file s
      = (Py.Ret text, Py.mkState text (Py.st_errors s ++ shown)%list)
      /\ (List.length shown <= 1)%nat)
  /\ (forall ty texts dx rd s,
        parse_pdf (mkUpload ty (inr (map inr texts)) dx rd) s
        = (Py.Ret (String.concat "" (map (fun t => t ++ String "010" "") texts)),
           Py.mkState
             (String.concat "" (map (fun t => t ++ String "010" "") texts))
             (Py.st_errors s)))
  /\ (forall ty texts e rest dx rd s,
        parse_pdf
          (mkUpload ty (inr (map inr texts ++ inl e :: rest)%list) dx rd) s
        = (Py.Ret (String.concat "" (map (fun t => t ++ String "010" "") texts)),
           Py.mkState
             (String.concat "" (map (fun t => t ++ String "010" "") texts))
             (Py.st_errors s ++ [("PDF parsing error: " ++ Py.str e)%string])%list))
  /\ (forall ty e dx rd s,
        parse_pdf (mkUpload ty (inl e) dx rd) s
        = (Py.Ret "",
           Py.mkState ""
             (Py.st_errors s ++ [("PDF parsing error: " ++ Py.str e)%string])%list)).
Proof.
  split; [|split; [|split]].
  - intros [ty [e|pages] dx rd] s.
    + rewrite parse_pdf_reader_fails. now eexists _, [_].
    + destruct (pages_cases pages) as [(texts & ->)|(texts & e & rest & ->)].
      * rewrite parse_pdf_all_pages. exists (pages_text texts), [].
        rewrite app_nil_r. split; [reflexivity | simpl; lia].
      * rewrite parse_pdf_failing_page. now eexists _, [_].
  - apply parse_pdf_all_pages.
  - apply parse_pdf_failing_page.
  - apply parse_pdf_reader_fails.
Qed.

End ParsePdf.

(** ** Skill extraction *)

Module ExtractFacts.

Lemma max_list_ge (l : list nat) (n : nat) :
  In n l -> (n <= PyNum.max_list l)%nat.
Proof.
  induction l as [|m l IH]; simpl; [tauto|].
  intros [->|H]; [lia|]. specialize (IH H). lia.
Qed.

Lemma max_list_in (l : list nat) : l <> [] -> In (PyNum.max_list l) l.
Proof.
  induction l as [|m l IH]; [congruence|]. intros _.
  destruct l as [|m' l].
  - left. simpl. lia.
  - assert (H : In (PyNum.max_list (m' :: l)) (m' :: l))
      by (apply IH; discriminate).
    change (PyNum.max_list (m :: m' :: l))
      with (Nat.max m (PyNum.max_list (m' :: l))).
    destruct (Nat.max_spec m (PyNum.max_list (m' :: l))) as [[_ ->]|[_ ->]].
    + now right.
    + now left.
Qed.

(** The divisor of line 60 is at least 1 for the counts of a [Counter]. *)
Lemma max_count_positive (l : list string) :
  (1 <= max_count (Dict.Counter l))%nat.
Proof.
  unfold max_count.
  pose proof (DictFacts.Counter_positive l) as P.
  destruct (Dict.Counter l) as [|[k c] d] eqn:E; [lia|].
  inversion P as [|? ? Hc _]; subst. simpl in Hc.
  eapply Nat.le_trans; [exact Hc|].
  apply max_list_ge. now left.
Qed.

(** A count of a [Counter], divided by the largest and rounded, is in
    [0,1]. *)
Lemma confidence_unit_interval (l : list string) (k : string) (c : nat) :
  In (k, c) (Dict.Counter l) ->
  let v := PyNum.round2
             (PyNum.fl
                (PyNum.of_nat c / PyNum.of_nat (max_count (Dict.Counter l))))%Q
  in
  (0 <= v)%Q /\ (v <= 1)%Q.
Proof.
  intros H. pose proof (max_count_positive l) as Pos.
  apply PyNumFacts.round2_unit_interval;
    apply PyNumFacts.fl_unit_interval;
    apply PyNumFacts.ratio_unit_interval; try exact Pos.
  all: unfold max_count; destruct (Dict.Counter l) as [|kc d]; [destruct H|];
    apply max_list_ge;
    change c with (snd (k, c)); now apply in_map.
Qed.

Lemma confidences_unit_valued (l : list string) :
  unit_valued (confidences (Dict.Counter l)).
Proof.
  intros k v H. apply in_map_iff in H. destruct H as ([k' c] & [= _ <-] & H).
  now apply (confidence_unit_interval _ k' c).
Qed.

Lemma keys_confidences (counts : Dict.t nat) :
  Dict.keys (confidences counts) = Dict.keys counts.
Proof. unfold Dict.keys, confidences. rewrite map_map. reflexivity. Qed.

(** A dict comprehension over items with distinct keys keeps them all, in
    order. *)
Lemma comprehension_distinct {V W} (g : W -> V) (kws : list (string * W))
    (acc : Dict.t V) :
  NoDup (map fst kws) ->
  (forall k, In k (Dict.keys acc) -> ~ In k (map fst kws)) ->
  fold_left (fun d kw => Dict.set d (fst kw) (g (snd kw))) kws acc
  = (acc ++ map (fun kw => (fst kw, g (snd kw))) kws)%list.
Proof.
  revert acc. induction kws as [|[k w] kws IH]; intros acc N D.
  - simpl. now rewrite app_nil_r.
  - inversion N as [|? ? N1 N2]; subst. cbn [fold_left map fst snd].
    rewrite DictFacts.set_fresh.
    + rewrite IH; [now rewrite <- app_assoc | exact N2 |].
      intros k' Hk'. unfold Dict.keys in Hk'. rewrite map_app in Hk'.
      apply in_app_or in Hk'. destruct Hk' as [Hk'|[<-|[]]].
      * intros C. apply (D k' Hk'). now right.
      * exact N1.
    + intros C. apply (D k C). now left.
Qed.

Section Runs.
Variable nlp : string -> Py.exn + list string.
Variable catalog : Dict.t (list string).

(** When the tokenizer returns, [extract_skills] returns, and returns the
    counts divided by the largest and rounded. *)
Lemma extract_skills_run (text : string) (doc : list string) (s : Py.state) :
  nlp text = inr doc ->
  extract_skills nlp catalog text s
  = (Py.Ret (confidences (Dict.Counter (skills_found catalog doc))), s).
Proof.
  intros E. unfold extract_skills, Py.bind at 1. rewrite E. cbn [Py.call Py.ret].
  set (counts := Dict.Counter (skills_found catalog doc)).
  rewrite (PyFacts.fold_m_pure _
             (fun d kc =>
                Dict.set d (fst kc)
                  (PyNum.round2
                     (PyNum.fl (PyNum.of_nat (snd kc)
                                / PyNum.of_nat (max_count counts)))%Q))).
  - rewrite (comprehension_distinct
               (fun c => PyNum.round2
                           (PyNum.fl (PyNum.of_nat c
                                      / PyNum.of_nat (max_count counts)))%Q)).
    + reflexivity.
    + apply DictFacts.NoDup_keys_Counter.
    + intros k [].
  - intros acc [k c] s' _. unfold Py.bind.
    rewrite PyFacts.truediv_run; [reflexivity|].
    apply PyNumFacts.of_nat_nonzero, max_count_positive.
Qed.

(** When the tokenizer raises, [extract_skills] raises the same exception. *)
Lemma extract_skills_raises (text : string) (e : Py.exn) (s : Py.state) :
  nlp text = inl e -> extract_skills nlp catalog text s = (Py.Exc e, s).
Proof.
  intros E. unfold extract_skills, Py.bind. rewrite E. reflexivity.
Qed.

Lemma in_skills_found (doc : list string) (token : string) :
  In token (skills_found catalog doc)
  <-> In token doc
      /\ In (PyStr.lower token) (map PyStr.lower (common_skills catalog)).
Proof.
  unfold skills_found. rewrite filter_In.
  unfold PyStr.mem. rewrite existsb_exists.
  split; intros [H1 H2]; (split; [exact H1|]).
  - destruct H2 as (x & Hx & E). apply String.eqb_eq in E. now subst.
  - exists (PyStr.lower token). split; [exact H2 | apply String.eqb_refl].
Qed.

End Runs.

Lemma fold_left_app_concat {A} (ls : list (list A)) (acc : list A) :
  fold_left (fun acc l => (acc ++ l)%list) ls acc = (acc ++ List.concat ls)%list.
Proof.
  revert acc. induction ls as [|l ls IH]; intros acc; simpl.
  - now rewrite app_nil_r.
  - now rewrite IH, app_assoc.
Qed.

(** The vocabulary is the union of the required skills of the roles. *)
Lemma in_common_skills (catalog : Dict.t (list string)) (skill : string) :
  In skill (common_skills catalog)
  <-> exists role req_skills,
        In (role, req_skills) catalog /\ In skill req_skills.
Proof.
  unfold common_skills, list_set.
  rewrite nodup_In, fold_left_app_concat, app_nil_l, in_concat.
  unfold Dict.values. split.
  - intros (req & H & Hs). apply in_map_iff in H.
    destruct H as ([role req'] & <- & H). now exists role, req'.
  - intros (role & req & H & Hs). exists req. split; [|exact Hs].
    apply in_map_iff. now exists (role, req).
Qed.

End ExtractFacts.


(** The keys of the mapping keep the spelling of the tokens: with the
    catalog of the program, the token "python" becomes a key although the
    vocabulary only has "Python". *)
Lemma extract_skills_key_outside_vocabulary :
  extract_skills (fun _ => inr ["python"]) role_skills "python" init
  = (Py.Ret [("python", 1%Q)], init)
  /\ PyStr.mem "python" (common_skills role_skills) = false
  /\ PyStr.mem "Python" (common_skills role_skills) = true.
Proof. repeat split; vm_compute; reflexivity. Qed.

(** C2, as the code has it: when the tokenizer raises, [extract_skills]
    raises the same exception; when it returns, [extract_skills] returns a
    mapping in which every confidence is in [0,1]; every key is a token of
    the text whose lower-case form is the lower-case form of a skill of the
    vocabulary, and no key occurs twice; the vocabulary is the union of the
    required skills of the roles. *)
Theorem extract_skills_values_and_keys
    (nlp : string -> Py.exn + list string) (catalog : Dict.t (list string))
    (text : string) (s : Py.state) :
  match nlp text with
  | inl e => extract_skills nlp catalog text s = (Py.Exc e, s)
  | inr doc =>
      exists conf,
        extract_skills nlp catalog text s = (Py.Ret conf, s)
        /\ (forall k v, In (k, v) conf -> (0 <= v)%Q /\ (v <= 1)%Q)
        /\ (forall k,
              In k (Dict.keys conf)
              <-> In k doc
                  /\ exists skill,
                       In skill (common_skills catalog)
                       /\ PyStr.lower k = PyStr.lower skill)
        /\ NoDup (Dict.keys conf)
  end
  /\ (forall skill,
        In skill (common_skills catalog)
        <-> exists role req_skills,
              In (role, req_skills) catalog /\ In skill req_skills).
Proof.
  split; [|apply ExtractFacts.in_common_skills].
  destruct (nlp text) as [e|doc] eqn:T;
    [now apply ExtractFacts.extract_skills_raises|].
  rewrite (ExtractFacts.extract_skills_run _ _ _ _ _ T).
  eexists. split; [reflexivity|].
  split; [apply ExtractFacts.confidences_unit_valued|].
  rewrite ExtractFacts.keys_confidences. split.
  - intros k.
    rewrite DictFacts.in_keys_Counter, ExtractFacts.in_skills_found.
    rewrite in_map_iff. split; intros [H1 (skill & H2 & H3)]; split; eauto.
  - apply DictFacts.NoDup_keys_Counter.
Qed.

(** ** The examples of the specification *)

(** C6: with nothing uploaded and the manual entry "Python, SQL, Statistics",
    the script returns; Data Scientist scores 60 with Python, SQL and
    Statistics matched and Machine Learning and Data Visualization missing,
    and Full Stack Developer scores 0. *)
Theorem manual_python_sql_statistics
    (nlp : string -> Py.exn + list string) :
  exists o,
    app_py nlp role_skills None "Python, SQL, Statistics" init
    = (Py.Ret o, init)
    /\ out_conf o = [("Python", 1%Q); ("SQL", 1%Q); ("Statistics", 1%Q)]
    /\ map (fun e => (Role e, Match_pct e)) (out_scores o)
       = [ ("Data Scientist", 60%Q); ("Cybersecurity Analyst", 20%Q);
           ("Product Manager", 20%Q); ("Full Stack Developer", 0%Q);
           ("Cloud Engineer", 0%Q) ]
    /\ hd_error (out_scores o)
       = Some (mkRoleScore "Data Scientist" 60%Q
                 ["Python"; "SQL"; "Statistics"]
                 ["Machine Learning"; "Data Visualization"]).
Proof.
  eexists. split; [vm_compute; reflexivity|]. repeat split; reflexivity.
Qed.

(** ** No input at all *)

Module EmptyInput.

Lemma filter_none {A} (l : list A) : filter (fun _ => false) l = [].
Proof. induction l; simpl; auto. Qed.

Lemma filter_all {A} (f : A -> bool) (l : list A) :
  Forall (fun x => f x = true) l -> filter f l = l.
Proof.
  induction 1 as [|x l Hx _ IH]; simpl; [reflexivity|].
  now rewrite Hx, IH.
Qed.

(** Without user skills nothing is matched and everything is missing. *)
Lemma score_entry_no_skills (role : string) (req_skills : list string) :
  score_entry [] role req_skills = mkRoleScore role 0%Q [] req_skills.
Proof.
  unfold score_entry. cbn [PyStr.mem existsb].
  rewrite filter_none. cbn [PyStr.mem existsb negb].
  rewrite (filter_all (fun _ => true)) by (apply Forall_forall; reflexivity).
  f_equal. destruct req_skills as [|r req]; [reflexivity|].
  rewrite (PyNumFacts.fl_zero
             (PyNum.len (@nil string) / PyNum.len (r :: req))%Q);
    [reflexivity|].
  unfold Qdiv. apply Qmult_0_l.
Qed.

(** Sorting entries of one and the same key changes nothing. *)
Lemma sorted_reverse_constant {A} (key : A -> Q) (p : Q) (l : list A) :
  Forall (fun a => Qeq_bool (key a) p = true) l ->
  PySort.sorted_reverse key l = l.
Proof.
  intros F.
  rewrite <- (filter_all (PySort.has_key key p)
                (PySort.sorted_reverse key l)).
  - rewrite PySortFacts.sorted_reverse_filter. now apply filter_all.
  - eapply Permutation_Forall; [apply PySortFacts.sorted_reverse_perm|].
    exact F.
Qed.

Lemma flat_map_map {A B C} (g : A -> B) (f : B -> list C) (l : list A) :
  flat_map f (map g l) = flat_map (fun a => f (g a)) l.
Proof. induction l as [|a l IH]; simpl; [reflexivity | now rewrite IH]. Qed.

Lemma all_roles_scores_no_skills (catalog : Dict.t (list string))
    (s : Py.state) :
  all_roles_scores catalog [] s
  = (Py.Ret (map (fun rr => mkRoleScore (fst rr) 0%Q [] (snd rr)) catalog),
     s).
Proof.
  rewrite all_roles_scores_run. do 2 f_equal.
  rewrite (map_ext _ (fun rr => mkRoleScore (fst rr) 0%Q [] (snd rr)))
    by (intros; apply score_entry_no_skills).
  apply (sorted_reverse_constant _ 0%Q).
  apply Forall_forall. intros e H. apply in_map_iff in H.
  now destruct H as (rr & <- & _).
Qed.

End EmptyInput.

(** With nothing uploaded and nothing entered the plan of the program is not
    empty: every skill of the five roles is missing, which makes 25 items,
    the first for Python. *)
Lemma empty_input_plan_not_empty :
  exists o,
    app_py (fun _ => inr []) role_skills None "" init = (Py.Ret o, init)
    /\ List.length (out_plan o) = 25%nat
    /\ hd_error (out_plan o)
       = Some (mkPlanItem 1 "Python" ["Coursera/YouTube Course on Python"]).
Proof. eexists. repeat split; reflexivity. Qed.

(** C3, as the code has it: with nothing uploaded and an empty manual entry
    the script returns, the skill mapping is empty, every role scores 0 with
    nothing matched and all its required skills missing, in the order of the
    catalog; the plan has one item for each required skill of each of the
    first five roles; and the user series of every radar chart is all zeros. *)
Theorem empty_input_outputs
    (nlp : string -> Py.exn + list string) (catalog : Dict.t (list string)) :
  exists o,
    app_py nlp catalog None "" init = (Py.Ret o, init)
    /\ out_conf o = []
    /\ out_scores o
       = map (fun rr => mkRoleScore (fst rr) 0%Q [] (snd rr)) catalog
    /\ out_plan o
       = flat_map
           (fun rr =>
              map (fun skill =>
                     mkPlanItem 1 skill
                       ["Coursera/YouTube Course on " ++ skill])
                  (snd rr))
           (firstn 5 catalog)
    /\ List.length (out_radars o) = Nat.min 5 (List.length catalog)
    /\ Forall (fun r => Forall (fun v => v = 0%Q) (user_vals r))
              (out_radars o).
Proof.
  unfold app_py, Py.bind. cbn [user_skills_conf PyStr.truthy Py.ret Dict.keys Dict.empty map].
  rewrite EmptyInput.all_roles_scores_no_skills.
  eexists. split; [reflexivity|].
  cbn [out_conf out_scores out_plan out_radars].
  split; [reflexivity|]. split; [reflexivity|]. split; [|split].
  - rewrite plan_flat_map, firstn_map, EmptyInput.flat_map_map.
    reflexivity.
  - unfold radars. now rewrite length_map, length_firstn, length_map.
  - unfold radars. apply Forall_map, Forall_forall. intros e _.
    unfold radar. cbn [user_vals]. apply Forall_map, Forall_forall.
    intros skill _. reflexivity.
Qed.

(** ** Reading back the JSON of the plan *)

Module JsonFacts.
Import Json.

(** Induction on values, with the hypothesis for every element of an array
    and every member of an object. *)
Lemma value_ind' (P : value -> Prop) :
  (forall z, P (Int z)) ->
  (forall s, P (Str s)) ->
  (forall l, Forall P l -> P (Arr l)) ->
  (forall l, Forall (fun kv => P (snd kv)) l -> P (Obj l)) ->
  forall v, P v.
Proof.
  intros HI HS HA HO. fix IH 1. intros [z|s|l|l].
  - apply HI.
  - apply HS.
  - apply HA. revert l. fix IHl 1. intros [|x l].
    + constructor.
    + constructor; [apply IH | apply IHl].
  - apply HO. revert l. fix IHl 1. intros [|[k x] l].
    + constructor.
    + constructor; [apply IH | apply IHl].
Qed.

(** *** The lexer on the pieces of the written text *)

Lemma run_app (st : lstate) (a b : string) :
  run st (a ++ b)
  = match run st a with Some st' => run st' b | None => None end.
Proof.
  revert st. induction a as [|c a IH]; intros st; simpl; [reflexivity|].
  destruct (step st c); [apply IH | reflexivity].
Qed.

Lemma lex_from_app (st st' : lstate) (a b : string) :
  run st a = Some st' -> lex_from st (a ++ b) = lex_from st' b.
Proof. intros H. unfold lex_from. now rewrite run_app, H. Qed.

Lemma lex_from_cons (st : lstate) (c : ascii) (s : string) :
  lex_from st (String c s)
  = match step st c with Some st' => lex_from st' s | None => None end.
Proof. unfold lex_from. simpl. now destruct (step st c). Qed.

Lemma run_spaces (n : nat) (toks : list token) :
  run (Default, toks) (spaces n) = Some (Default, toks).
Proof. induction n as [|n IH]; simpl; [reflexivity | exact IH]. Qed.

Lemma run_newline (d : nat) (toks : list token) :
  run (Default, toks) (newline d) = Some (Default, toks).
Proof. unfold newline. cbn [run step step_default]. apply run_spaces. Qed.

(** An escaped character reads back as the character. *)
Lemma run_escape_char (c : ascii) (acc : string) (toks : list token) :
  run (InStr acc, toks) (escape_char c)
  = Some (InStr (acc ++ String c ""), toks).
Proof.
  destruct c as [[|] [|] [|] [|] [|] [|] [|] [|]]; reflexivity.
Qed.

Lemma run_escape (s acc : string) (toks : list token) :
  run (InStr acc, toks) (escape s) = Some (InStr (acc ++ s), toks).
Proof.
  revert acc. induction s as [|c s IH]; intros acc; cbn [escape].
  - now rewrite PyStrFacts.append_empty_r.
  - rewrite run_app, run_escape_char, IH, PyStrFacts.append_assoc.
    reflexivity.
Qed.

Lemma run_quote (s : string) (toks : list token) :
  run (Default, toks) (quote s) = Some (Default, (toks ++ [TStr s])%list).
Proof.
  unfold quote.
  change (run (Default, toks)
            (String quote_char (escape s ++ String quote_char "")))
    with (run (InStr "", toks) (escape s ++ String quote_char "")).
  rewrite run_app, run_escape. reflexivity.
Qed.

Lemma run_cons (st : lstate) (c : ascii) (s : string) :
  run st (String c s)
  = match step st c with Some st' => run st' s | None => None end.
Proof. reflexivity. Qed.

Lemma step_num_digit (acc : string) (toks : list token) (c : ascii) :
  is_digit c = true ->
  step (InNum acc, toks) c = Some (InNum (acc ++ String c ""), toks).
Proof. intros H. cbn [step]. now rewrite H. Qed.

Lemma step_default_digit (toks : list token) (c : ascii) :
  is_digit c = true ->
  step (Default, toks) c = Some (InNum (String c ""), toks).
Proof.
  destruct c as [[|] [|] [|] [|] [|] [|] [|] [|]];
    intros H; try discriminate H; reflexivity.
Qed.

Lemma run_digits (d : Decimal.uint) (acc : string) (toks : list token) :
  run (InNum acc, toks) (DecimalString.NilEmpty.string_of_uint d)
  = Some (InNum (acc ++ DecimalString.NilEmpty.string_of_uint d), toks).
Proof.
  revert acc.
  induction d as [|d IH|d IH|d IH|d IH|d IH|d IH|d IH|d IH|d IH|d IH];
    intros acc; cbn [DecimalString.NilEmpty.string_of_uint];
    [now rewrite PyStrFacts.append_empty_r|..];
    rewrite run_cons, step_num_digit by reflexivity;
    rewrite IH, PyStrFacts.append_assoc; reflexivity.
Qed.

Lemma run_uint (d : Decimal.uint) (toks : list token) :
  d <> Decimal.Nil ->
  run (Default, toks) (DecimalString.NilEmpty.string_of_uint d)
  = Some (InNum (DecimalString.NilEmpty.string_of_uint d), toks).
Proof.
  intros N. destruct d; [congruence|..];
    cbn [DecimalString.NilEmpty.string_of_uint];
    rewrite run_cons, step_default_digit by reflexivity;
    now rewrite run_digits.
Qed.

Lemma run_int (z : Z) (toks : list token) :
  run (Default, toks) (DecimalString.NilEmpty.string_of_int (Z.to_int z))
  = Some (InNum (DecimalString.NilEmpty.string_of_int (Z.to_int z)), toks).
Proof.
  destruct z as [|p|p]; cbn [Z.to_int DecimalString.NilEmpty.string_of_int].
  - reflexivity.
  - apply run_uint, DecimalPos.Unsigned.to_uint_nonnil.
  - rewrite run_cons.
    change (step (Default, toks) "-") with (Some (InNum "-", toks)).
    cbv beta iota. now rewrite run_digits.
Qed.

Lemma number_int (z : Z) :
  number (DecimalString.NilEmpty.string_of_int (Z.to_int z)) = Some (TInt z).
Proof.
  unfold number. now rewrite DecimalString.NilEmpty.isi, DecimalZ.of_to.
Qed.

Lemma lex_from_number (digits : string) (t : token) (toks : list token)
    (rest : string) :
  number digits = Some t -> starts_plain rest = true ->
  lex_from (InNum digits, toks) rest
  = lex_from (Default, (toks ++ [t])%list) rest.
Proof.
  intros N P. destruct rest as [|c rest].
  - unfold lex_from. simpl. now rewrite N.
  - rewrite !lex_from_cons. simpl in P. apply negb_true_iff in P.
    cbn [step]. now rewrite P, N.
Qed.

Lemma lexes_int (z : Z) :
  lexes_to (DecimalString.NilEmpty.string_of_int (Z.to_int z)) [TInt z].
Proof.
  intros toks rest P.
  rewrite (lex_from_app _ _ _ _ (run_int z toks)).
  apply lex_from_number; [apply number_int | exact P].
Qed.

Lemma lexes_quote (s : string) : lexes_to (quote s) [TStr s].
Proof. intros toks rest _. apply lex_from_app, run_quote. Qed.

Lemma lex_from_newline (d : nat) (toks : list token) (rest : string) :
  lex_from (Default, toks) (newline d ++ rest) = lex_from (Default, toks) rest.
Proof. apply lex_from_app, run_newline. Qed.

Lemma lex_from_punct (toks : list token) (s : string) :
  lex_from (Default, toks) (String "[" s)
  = lex_from (Default, (toks ++ [LBrack])%list) s
  /\ lex_from (Default, toks) (String "]" s)
     = lex_from (Default, (toks ++ [RBrack])%list) s
  /\ lex_from (Default, toks) (String "{" s)
     = lex_from (Default, (toks ++ [LBrace])%list) s
  /\ lex_from (Default, toks) (String "}" s)
     = lex_from (Default, (toks ++ [RBrace])%list) s
  /\ lex_from (Default, toks) (String ":" s)
     = lex_from (Default, (toks ++ [Colon])%list) s
  /\ lex_from (Default, toks) (String "," s)
     = lex_from (Default, (toks ++ [Comma])%list) s.
Proof. repeat split; reflexivity. Qed.

Lemma lex_from_comma (toks : list token) (s : string) :
  lex_from (Default, toks) (String "," s)
  = lex_from (Default, (toks ++ [Comma])%list) s.
Proof. apply lex_from_punct. Qed.

Lemma lexes_body (d : nat) (texts : list string) (tss : list (list token)) :
  Forall2 lexes_to texts tss ->
  forall toks rest,
    starts_plain rest = true ->
    lex_from (Default, toks) (body d texts ++ rest)
    = lex_from (Default, (toks ++ sep_tokens tss)%list) rest.
Proof.
  induction 1 as [|t ts texts tss Ht Hrest IH]; intros toks rest P.
  - simpl. now rewrite app_nil_r.
  - destruct Hrest as [|t' ts' texts' tss' Ht' Hrest'].
    + cbn [body sep_tokens].
      rewrite PyStrFacts.append_assoc, lex_from_newline. now apply Ht.
    + change (body d (t :: t' :: texts'))
        with (newline (S d) ++ t ++ String "," (body d (t' :: texts'))).
      change (sep_tokens (ts :: ts' :: tss'))
        with (ts ++ Comma :: sep_tokens (ts' :: tss'))%list.
      rewrite !PyStrFacts.append_assoc, lex_from_newline.
      rewrite Ht by reflexivity.
      rewrite PyStrFacts.append_cons, lex_from_comma, IH by exact P.
      now rewrite <- !app_assoc.
Qed.

Lemma Forall2_map_same {A B C} (P : B -> C -> Prop) (f : A -> B) (g : A -> C)
    (l : list A) :
  Forall (fun a => P (f a) (g a)) l -> Forall2 P (map f l) (map g l).
Proof. induction 1; simpl; constructor; auto. Qed.

(** The written text of a value lexes to its tokens, at every depth. *)
Lemma lexes_dumps (v : value) : forall d, lexes_to (dumps d v) (tokens v).
Proof.
  induction v as [z|s|l IH|l IH] using value_ind'; intros d.
  - apply lexes_int.
  - apply lexes_quote.
  - destruct l as [|x l].
    + intros toks rest _.
      change (lex_from (Default, ((toks ++ [LBrack]) ++ [RBrack])%list) rest
              = lex_from (Default, (toks ++ [LBrack; RBrack])%list) rest).
      now rewrite <- app_assoc.
    + intros toks rest P.
      change (dumps d (Arr (x :: l)))
        with (String "["
                (body d (map (dumps (S d)) (x :: l)) ++ newline d ++ "]")).
      cbn [tokens].
      rewrite PyStrFacts.append_cons, !PyStrFacts.append_assoc.
      destruct (lex_from_punct toks
                  (body d (map (dumps (S d)) (x :: l))
                   ++ newline d ++ "]" ++ rest)) as (-> & _).
      rewrite (lexes_body d _ (map tokens (x :: l))).
      * rewrite lex_from_newline, PyStrFacts.append_cons.
        destruct (lex_from_punct
                    ((toks ++ [LBrack]) ++ sep_tokens (map tokens (x :: l)))
                    ("" ++ rest)) as (_ & -> & _).
        cbn [append]. f_equal. f_equal.
        now rewrite <- !app_assoc.
      * apply Forall2_map_same. eapply Forall_impl; [|exact IH].
        intros a Ha. apply Ha.
      * reflexivity.
  - destruct l as [|[k x] l].
    + intros toks rest _.
      change (lex_from (Default, ((toks ++ [LBrace]) ++ [RBrace])%list) rest
              = lex_from (Default, (toks ++ [LBrace; RBrace])%list) rest).
      now rewrite <- app_assoc.
    + intros toks rest P.
      change (dumps d (Obj ((k, x) :: l)))
        with (String "{"
                (body d (map (fun '(k, x) =>
                                quote k ++ String ":" (dumps (S d) x))
                             ((k, x) :: l))
                 ++ newline d ++ "}")).
      cbn [tokens].
      rewrite PyStrFacts.append_cons, !PyStrFacts.append_assoc.
      destruct (lex_from_punct toks
                  (body d (map (fun '(k, x) =>
                                  quote k ++ String ":" (dumps (S d) x))
                               ((k, x) :: l))
                   ++ newline d ++ "}" ++ rest)) as (_ & _ & -> & _).
      rewrite (lexes_body d _
                 (map (fun '(k, x) => TStr k :: Colon :: tokens x)
                      ((k, x) :: l))).
      * rewrite lex_from_newline, PyStrFacts.append_cons.
        destruct (lex_from_punct
                    ((toks ++ [LBrace])
                     ++ sep_tokens
                          (map (fun '(k, x) => TStr k :: Colon :: tokens x)
                               ((k, x) :: l)))
                    ("" ++ rest)) as (_ & _ & _ & -> & _).
        cbn [append]. f_equal. f_equal.
        now rewrite <- !app_assoc.
      * apply Forall2_map_same. eapply Forall_impl; [|exact IH].
        intros [k' x'] Hx toks' rest' P'. cbn [snd] in Hx.
        rewrite PyStrFacts.append_assoc, lexes_quote by reflexivity.
        rewrite PyStrFacts.append_cons.
        destruct (lex_from_punct (toks' ++ [TStr k'])
                    (dumps (S d) x' ++ rest')) as (_ & _ & _ & _ & -> & _).
        rewrite Hx by exact P'. f_equal. f_equal.
        now rewrite <- !app_assoc.
      * reflexivity.
Qed.

Lemma lex_dumps (v : value) : lex (dumps 0 v) = Some (tokens v).
Proof.
  unfold lex. rewrite <- (PyStrFacts.append_empty_r (dumps 0 v)).
  now rewrite lexes_dumps.
Qed.

(** *** The parser on the tokens of a value *)

Lemma tokens_open (v : value) (rest : list token) :
  opens (tokens v ++ rest)%list.
Proof. destruct v; exact I. Qed.

Lemma sep_tokens_open (x : value) (l : list value) (rest : list token) :
  opens (sep_tokens (map tokens (x :: l)) ++ rest)%list.
Proof.
  destruct l as [|y l].
  - apply tokens_open.
  - change (sep_tokens (map tokens (x :: y :: l)))
      with (tokens x ++ Comma :: sep_tokens (map tokens (y :: l)))%list.
    rewrite <- app_assoc. apply tokens_open.
Qed.

Lemma parse_value_array (n : nat) (ts : list token) :
  opens ts ->
  parse_value (S n) (LBrack :: ts)
  = match parse_elems n ts with
    | Some (l, r) => Some (Arr l, r)
    | None => None
    end.
Proof. destruct ts as [|[] ts]; simpl; intros H; (reflexivity || destruct H). Qed.

Lemma parse_elems_tokens (l : list value) :
  Forall (fun x => forall fuel rest,
              size x <= fuel ->
              parse_value fuel (tokens x ++ rest)%list = Some (x, rest)) l ->
  l <> [] ->
  forall fuel rest,
    list_sum (map (fun x => S (size x)) l) <= fuel ->
    parse_elems fuel (sep_tokens (map tokens l) ++ RBrack :: rest)%list
    = Some (l, rest).
Proof.
  induction 1 as [|x l Hx Hl IH]; [congruence|]. intros _ fuel rest Hf.
  cbn [map list_sum] in Hf.
  destruct fuel as [|n]; [simpl in Hf; lia|].
  destruct l as [|y l].
  - cbn [map sep_tokens parse_elems].
    rewrite Hx by (simpl in Hf; lia). reflexivity.
  - change (sep_tokens (map tokens (x :: y :: l)))
      with (tokens x ++ Comma :: sep_tokens (map tokens (y :: l)))%list.
    rewrite <- app_assoc, <- app_comm_cons. cbn [parse_elems].
    rewrite Hx by (simpl in Hf; lia).
    rewrite IH; [reflexivity | discriminate | simpl in Hf |- *; lia].
Qed.

Lemma parse_members_tokens (l : list (string * value)) :
  Forall (fun kv => forall fuel rest,
              size (snd kv) <= fuel ->
              parse_value fuel (tokens (snd kv) ++ rest)%list
              = Some (snd kv, rest)) l ->
  l <> [] ->
  forall fuel rest,
    list_sum (map (fun '(_, x) => S (size x)) l) <= fuel ->
    parse_members fuel
      (sep_tokens (map (fun '(k, x) => TStr k :: Colon :: tokens x) l)
       ++ RBrace :: rest)%list
    = Some (l, rest).
Proof.
  induction 1 as [|[k x] l Hx Hl IH]; [congruence|]. intros _ fuel rest Hf.
  cbn [map list_sum snd] in Hf, Hx.
  destruct fuel as [|n]; [simpl in Hf; lia|].
  destruct l as [|[k' y] l].
  - cbn [map sep_tokens parse_members List.app].
    rewrite Hx by (simpl in Hf; lia). reflexivity.
  - change (sep_tokens
              (map (fun '(k, x) => TStr k :: Colon :: tokens x)
                   ((k, x) :: (k', y) :: l)))
      with ((TStr k :: Colon :: tokens x)
            ++ Comma
               :: sep_tokens
                    (map (fun '(k, x) => TStr k :: Colon :: tokens x)
                         ((k', y) :: l)))%list.
    rewrite <- app_assoc, <- !app_comm_cons. cbn [parse_members].
    rewrite Hx by (simpl in Hf; lia).
    rewrite IH; [reflexivity | discriminate | simpl in Hf |- *; lia].
Qed.

(** With fuel for its size, the parser reads the tokens of a value back and
    stops right after them. *)
Lemma parse_value_tokens (v : value) :
  forall fuel rest,
    size v <= fuel ->
    parse_value fuel (tokens v ++ rest)%list = Some (v, rest).
Proof.
  induction v as [z|s|l IH|l IH] using value_ind'; intros fuel rest Hf.
  - destruct fuel; [simpl in Hf; lia | reflexivity].
  - destruct fuel; [simpl in Hf; lia | reflexivity].
  - destruct fuel as [|n]; [simpl in Hf; lia|].
    destruct l as [|x l]; [reflexivity|].
    cbn [tokens]. rewrite <- app_comm_cons, <- app_assoc.
    rewrite parse_value_array by apply sep_tokens_open.
    cbn [List.app].
    rewrite parse_elems_tokens;
      [reflexivity | exact IH | discriminate | cbn [size] in Hf; lia].
  - destruct fuel as [|n]; [simpl in Hf; lia|].
    destruct l as [|[k x] l]; [reflexivity|].
    cbn [tokens]. rewrite <- app_comm_cons, <- app_assoc.
    cbn [List.app].
    assert (E : forall ts,
               parse_value (S n)
                 (LBrace
                  :: sep_tokens
                       (map (fun '(k, x) => TStr k :: Colon :: tokens x)
                            ((k, x) :: l)) ++ ts)%list
               = match
                   parse_members n
                     (sep_tokens
                        (map (fun '(k, x) => TStr k :: Colon :: tokens x)
                             ((k, x) :: l)) ++ ts)%list
                 with
                 | Some (l', r) => Some (Obj l', r)
                 | None => None
                 end).
    { intros ts. destruct l as [|[k' y] l]; reflexivity. }
    rewrite E, parse_members_tokens;
      [reflexivity | exact IH | discriminate | cbn [size] in Hf; lia].
Qed.

Lemma length_sep_tokens (tss : list (list token)) :
  list_sum (map (fun ts => S (List.length ts)) tss)
  <= S (List.length (sep_tokens tss)).
Proof.
  induction tss as [|ts tss IH]; [simpl; lia|].
  destruct tss as [|ts' tss].
  - simpl. lia.
  - change (sep_tokens (ts :: ts' :: tss))
      with (ts ++ Comma :: sep_tokens (ts' :: tss))%list.
    rewrite length_app. cbn [map list_sum fold_right List.length] in *. lia.
Qed.

Lemma list_sum_le {A} (f g : A -> nat) (l : list A) :
  Forall (fun a => f a <= g a) l ->
  list_sum (map f l) <= list_sum (map g l).
Proof. induction 1; simpl; lia. Qed.

Lemma size_le_tokens (v : value) : size v <= List.length (tokens v).
Proof.
  induction v as [z|s|l IH|l IH] using value_ind'; try (simpl; lia).
  - cbn [size tokens List.length]. rewrite length_app. cbn [List.length].
    pose proof (length_sep_tokens (map tokens l)) as L.
    rewrite map_map in L.
    pose proof (list_sum_le (fun x => S (size x))
                  (fun x => S (List.length (tokens x))) l) as M.
    assert (S1 : list_sum (map (fun x => S (size x)) l)
                 <= list_sum (map (fun x => S (List.length (tokens x))) l)).
    { apply M. eapply Forall_impl; [|exact IH]. simpl. intros; lia. }
    lia.
  - cbn [size tokens List.length]. rewrite length_app. cbn [List.length].
    pose proof (length_sep_tokens
                  (map (fun '(k, x) => TStr k :: Colon :: tokens x) l)) as L.
    rewrite map_map in L.
    assert (S1 : list_sum (map (fun '(_, x) => S (size x)) l)
                 <= list_sum
                      (map (fun kx =>
                              S (List.length
                                   (let '(k, x) := kx in
                                    TStr k :: Colon :: tokens x))) l)).
    { apply list_sum_le. eapply Forall_impl; [|exact IH].
      intros [k x] H. cbn [snd List.length] in *. lia. }
    lia.
Qed.

(** Reading back what was written gives the value. *)
Lemma loads_dumps (v : value) : loads (dumps 0 v) = Some v.
Proof.
  unfold loads. rewrite lex_dumps.
  rewrite <- (app_nil_r (tokens v)) at 2.
  rewrite parse_value_tokens; [reflexivity|].
  pose proof (size_le_tokens v). lia.
Qed.

End JsonFacts.

(** C8: the JSON text of a plan of the planner reads back as a list with one
    object per item of the plan, in order; every object has exactly the
    fields Week, Skill and Resources, in which Week is 1, Skill is a string
    and Resources is a list of one string. *)
Theorem plan_json_round_trip (scores : list RoleScore) :
  exists objects,
    Json.loads (plan_df_to_json (plan scores)) = Some (Json.Arr objects)
    /\ List.length objects = List.length (plan scores)
    /\ objects = map record_of (plan scores)
    /\ Forall (fun object =>
                 exists skill resource,
                   object
                   = Json.Obj [ ("Week", Json.Int 1);
                                ("Skill", Json.Str skill);
                                ("Resources", Json.Arr [Json.Str resource]) ])
              objects.
Proof.
  exists (map record_of (plan scores)).
  split; [apply JsonFacts.loads_dumps|].
  split; [apply length_map|]. split; [reflexivity|].
  rewrite plan_flat_map.
  apply Forall_map, Forall_forall. intros item H.
  apply in_flat_map in H. destruct H as (e & _ & H).
  apply in_map_iff in H. destruct H as (skill & <- & _).
  now exists skill, ("Coursera/YouTube Course on " ++ skill).
Qed.

(** * Further properties of the program *)

(** ** Reading a document *)

Lemma parse_docx_all_paragraphs ty px (texts : list string) rd (s : Py.state) :
  parse_docx (mkUpload ty px (inr (map inr texts)) rd) s
  = (Py.Ret (pages_text texts),
     Py.mkState (pages_text texts) (Py.st_errors s)).
Proof.
  unfold parse_docx, Py.bind, Py.try_except, Py.set_text.
  cbn [Document Py.call Py.ret].
  rewrite <- (app_nil_r (map inr texts)).
  rewrite for_each_parsed. reflexivity.
Qed.

Lemma parse_docx_failing_paragraph ty px (texts : list string) (e : Py.exn)
    (rest : list (Py.exn + string)) rd (s : Py.state) :
  parse_docx (mkUpload ty px (inr (map inr texts ++ inl e :: rest)%list) rd) s
  = (Py.Ret (pages_text texts),
     Py.mkState (pages_text texts)
       (Py.st_errors s ++ [("DOCX parsing error: " ++ Py.str e)%string])%list).
Proof.
  unfold parse_docx, Py.bind, Py.try_except, Py.set_text.
  cbn [Document Py.call Py.ret].
  rewrite for_each_parsed. reflexivity.
Qed.

(** X1: [parse_docx] returns for every file, with at most one message shown;
    when every paragraph is read the text is the paragraphs with a newline
    after each and nothing is shown; when a paragraph throws, the text is
    that of the paragraphs before it and the error is shown; when the
    document cannot be opened the text is empty and the error is shown. *)
Theorem parse_docx_never_raises :
  (forall file s, exists text shown,
      parse_docx file s
      = (Py.Ret text, Py.mkState text (Py.st_errors s ++ shown)%list)
      /\ (List.length shown <= 1)%nat)
  /\ (forall ty px texts rd s,
        parse_docx (mkUpload ty px (inr (map inr texts)) rd) s
        = (Py.Ret (String.concat "" (map (fun t => t ++ String "010" "") texts)),
           Py.mkState
             (String.concat "" (map (fun t => t ++ String "010" "") texts))
             (Py.st_errors s)))
  /\ (forall ty px texts e rest rd s,
        parse_docx
          (mkUpload ty px (inr (map inr texts ++ inl e :: rest)%list) rd) s
        = (Py.Ret (String.concat "" (map (fun t => t ++ String "010" "") texts)),
           Py.mkState
             (String.concat "" (map (fun t => t ++ String "010" "") texts))
             (Py.st_errors s
              ++ [("DOCX parsing error: " ++ Py.str e)%string])%list))
  /\ (forall ty px e rd s,
        parse_docx (mkUpload ty px (inl e) rd) s
        = (Py.Ret "",
           Py.mkState ""
             (Py.st_errors s
              ++ [("DOCX parsing error: " ++ Py.str e)%string])%list)).
Proof.
  split; [|split; [|split]].
  - intros [ty px [e|paras] rd] s.
    + eexists _, [_]. split; [reflexivity | simpl; lia].
    + destruct (pages_cases paras) as [(texts & ->)|(texts & e & rest & ->)].
      * rewrite parse_docx_all_paragraphs. exists (pages_text texts), [].
        rewrite app_nil_r. split; [reflexivity | simpl; lia].
      * rewrite parse_docx_failing_paragraph. eexists _, [_].
        split; [reflexivity | simpl; lia].
  - apply parse_docx_all_paragraphs.
  - apply parse_docx_failing_paragraph.
  - reflexivity.
Qed.

(** ** The script as a whole *)

Module Script.

Lemma parse_pdf_returns (f : UploadedFile) (s : Py.state) :
  exists text shown,
    parse_pdf f s
    = (Py.Ret text, Py.mkState text (Py.st_errors s ++ shown)%list)
    /\ (List.length shown <= 1)%nat.
Proof.
  destruct f as [ty [e|pages] dx rd].
  - rewrite parse_pdf_reader_fails. eexists _, [_].
    split; [reflexivity | simpl; lia].
  - destruct (pages_cases pages) as [(texts & ->)|(texts & e & rest & ->)].
    + rewrite parse_pdf_all_pages. exists (pages_text texts), [].
      rewrite app_nil_r. split; [reflexivity | simpl; lia].
    + rewrite parse_pdf_failing_page. eexists _, [_].
      split; [reflexivity | simpl; lia].
Qed.

Lemma parse_docx_returns (f : UploadedFile) (s : Py.state) :
  exists text shown,
    parse_docx f s
    = (Py.Ret text, Py.mkState text (Py.st_errors s ++ shown)%list)
    /\ (List.length shown <= 1)%nat.
Proof.
  destruct f as [ty px [e|paras] rd].
  - eexists _, [_]. split; [reflexivity | simpl; lia].
  - destruct (pages_cases paras) as [(texts & ->)|(texts & e & rest & ->)].
    + rewrite parse_docx_all_paragraphs. exists (pages_text texts), [].
      rewrite app_nil_r. split; [reflexivity | simpl; lia].
    + rewrite parse_docx_failing_paragraph. eexists _, [_].
      split; [reflexivity | simpl; lia].
Qed.

(** [extract_skills] returns a mapping with confidences in [0,1] and
    distinct keys, or raises what the tokenizer raised. *)
Lemma extract_skills_outcome (nlp : string -> Py.exn + list string)
    (catalog : Dict.t (list string)) (text : string) (s : Py.state) :
  (exists conf,
     extract_skills nlp catalog text s = (Py.Ret conf, s)
     /\ unit_valued conf /\ NoDup (Dict.keys conf))
  \/ (exists e,
        nlp text = inl e
        /\ extract_skills nlp catalog text s = (Py.Exc e, s)).
Proof.
  destruct (nlp text) as [e|doc] eqn:T.
  - right. exists e. split; [reflexivity|].
    now apply ExtractFacts.extract_skills_raises.
  - left. rewrite (ExtractFacts.extract_skills_run _ _ _ _ _ T).
    eexists. split; [reflexivity|]. split.
    + apply ExtractFacts.confidences_unit_valued.
    + rewrite ExtractFacts.keys_confidences.
      apply DictFacts.NoDup_keys_Counter.
Qed.

Lemma manual_unit_valued (manual_skills : string) :
  unit_valued (manual_skills_conf manual_skills).
Proof.
  intros k v H. apply DictFacts.in_of_items in H.
  apply in_map_iff in H. destruct H as (frag & [= _ <-] & _).
  split; discriminate.
Qed.

Lemma empty_unit_valued : unit_valued Dict.empty.
Proof. intros k v []. Qed.

(** With nothing uploaded, lines 77-109 return a mapping with confidences
    in [0,1] and distinct keys, and leave the state as it is. *)
Lemma manual_conf_returns (nlp : string -> Py.exn + list string)
    (catalog : Dict.t (list string)) (manual_skills : string) (s : Py.state) :
  exists conf,
    user_skills_conf nlp catalog None manual_skills s = (Py.Ret conf, s)
    /\ unit_valued conf /\ NoDup (Dict.keys conf).
Proof.
  exists (if PyStr.truthy manual_skills
          then manual_skills_conf manual_skills else Dict.empty).
  unfold user_skills_conf.
  destruct (PyStr.truthy manual_skills); (split; [reflexivity|]).
  - split; [apply manual_unit_valued | apply DictFacts.NoDup_keys_of_items].
  - split; [apply empty_unit_valued | constructor].
Qed.

(** Lines 77-109 show at most one message, and then either return a mapping
    with confidences in [0,1] and distinct keys, or raise what the tokenizer
    raised on the text of an upload, which is not empty. *)
Lemma user_skills_conf_outcome (nlp : string -> Py.exn + list string)
    (catalog : Dict.t (list string)) (uploaded : option UploadedFile)
    (manual_skills : string) (s : Py.state) :
  exists s' shown,
    Py.st_errors s' = (Py.st_errors s ++ shown)%list
    /\ (List.length shown <= 1)%nat
    /\ (uploaded = None -> s' = s)
    /\ ((exists conf,
           user_skills_conf nlp catalog uploaded manual_skills s
           = (Py.Ret conf, s')
           /\ unit_valued conf /\ NoDup (Dict.keys conf))
        \/ (exists e text,
              uploaded <> None
              /\ PyStr.truthy text = true
              /\ nlp text = inl e
              /\ user_skills_conf nlp catalog uploaded manual_skills s
                 = (Py.Exc e, s'))).
Proof.
  assert (After : forall text s1,
             (exists conf,
                (if PyStr.truthy text
                 then extract_skills nlp catalog text
                 else Py.ret Dict.empty) s1 = (Py.Ret conf, s1)
                /\ unit_valued conf /\ NoDup (Dict.keys conf))
             \/ (exists e,
                   PyStr.truthy text = true /\ nlp text = inl e
                   /\ (if PyStr.truthy text
                       then extract_skills nlp catalog text
                       else Py.ret Dict.empty) s1 = (Py.Exc e, s1))).
  { intros text s1. destruct (PyStr.truthy text).
    - destruct (extract_skills_outcome nlp catalog text s1)
        as [H|(e & T & H)]; [now left|].
      right. now exists e.
    - left. exists Dict.empty.
      split; [reflexivity | split; [apply empty_unit_valued | constructor]]. }
  assert (Then : forall text s1 shown,
             Py.st_errors s1 = (Py.st_errors s ++ shown)%list ->
             (List.length shown <= 1)%nat ->
             forall f : UploadedFile,
             exists s' shown',
               Py.st_errors s' = (Py.st_errors s ++ shown')%list
               /\ (List.length shown' <= 1)%nat
               /\ (Some f = None -> s' = s)
               /\ ((exists conf,
                      (if PyStr.truthy text
                       then extract_skills nlp catalog text
                       else Py.ret Dict.empty) s1 = (Py.Ret conf, s')
                      /\ unit_valued conf /\ NoDup (Dict.keys conf))
                   \/ (exists e text',
                         Some f <> None
                         /\ PyStr.truthy text' = true
                         /\ nlp text' = inl e
                         /\ (if PyStr.truthy text
                             then extract_skills nlp catalog text
                             else Py.ret Dict.empty) s1 = (Py.Exc e, s')))).
  { intros text s1 shown Es L f. exists s1, shown.
    split; [exact Es|]. split; [exact L|]. split; [discriminate|].
    destruct (After text s1) as [H|(e & T1 & T2 & H)]; [now left|].
    right. exists e, text. repeat split; try assumption. discriminate. }
  destruct uploaded as [f|].
  - unfold user_skills_conf, Py.bind.
    destruct (type f =? "application/pdf").
    { destruct (parse_pdf_returns f s) as (text & shown & -> & L).
      now apply (Then text _ shown). }
    destruct (type f =? _).
    { destruct (parse_docx_returns f s) as (text & shown & -> & L).
      now apply (Then text _ shown). }
    destruct (type f =? "text/plain"); cbn [Py.ret].
    + apply (Then (read_decode f) s []); [now rewrite app_nil_r | simpl; lia].
    + apply (Then "" s []); [now rewrite app_nil_r | simpl; lia].
  - destruct (manual_conf_returns nlp catalog manual_skills s)
      as (conf & E & U & N).
    exists s, []. rewrite app_nil_r.
    split; [reflexivity|]. split; [simpl; lia|]. split; [reflexivity|].
    left. now exists conf.
Qed.

End Script.


(** X3: a PDF that cannot be opened gives, whatever the manual entry says,
    the results of no input at all: an empty skill mapping and every role at
    0 with all its skills missing, in the order of the catalog; and it shows
    the one error. *)
Theorem unreadable_pdf_outputs
    (nlp : string -> Py.exn + list string) (catalog : Dict.t (list string))
    (e : Py.exn) (dx : Py.exn + list (Py.exn + string)) (rd : string)
    (manual_skills : string) (s : Py.state) :
  exists o,
    app_py nlp catalog
      (Some (mkUpload "application/pdf" (inl e) dx rd)) manual_skills s
    = (Py.Ret o,
       Py.mkState ""
         (Py.st_errors s ++ [("PDF parsing error: " ++ Py.str e)%string])%list)
    /\ out_conf o = []
    /\ out_scores o
       = map (fun rr => mkRoleScore (fst rr) 0%Q [] (snd rr)) catalog.
Proof.
  unfold app_py, Py.bind, user_skills_conf.
  cbn [type String.eqb Ascii.eqb Bool.eqb].
  unfold Py.bind. rewrite parse_pdf_reader_fails.
  cbn [PyStr.truthy Py.ret Dict.keys Dict.empty map].
  rewrite EmptyInput.all_roles_scores_no_skills.
  eexists. repeat split; reflexivity.
Qed.

(** ** More on the role matcher *)

Module MatcherFacts.

Lemma mem_In (x : string) (l : list string) :
  PyStr.mem x l = true <-> In x l.
Proof.
  unfold PyStr.mem. rewrite existsb_exists. split.
  - intros (y & Hy & E). apply String.eqb_eq in E. now subst.
  - intros H. exists x. split; [exact H | apply String.eqb_refl].
Qed.

Lemma mem_not_In (x : string) (l : list string) :
  PyStr.mem x l = false <-> ~ In x l.
Proof.
  rewrite <- mem_In. destruct (PyStr.mem x l); split; congruence.
Qed.

Lemma filter_split_perm {A} (f : A -> bool) (l : list A) :
  Permutation (filter f l ++ filter (fun x => negb (f x)) l) l.
Proof.
  induction l as [|x l IH]; simpl; [constructor|].
  destruct (f x); simpl.
  - now constructor.
  - rewrite <- Permutation_middle. now constructor.
Qed.

Lemma filter_split_length {A} (f : A -> bool) (l : list A) :
  List.length (filter f l) + List.length (filter (fun x => negb (f x)) l)
  = List.length l.
Proof.
  rewrite <- length_app. apply Permutation_length, filter_split_perm.
Qed.

(** The entries of the scores are those of the roles of the catalog. *)
Lemma scores_entries (catalog : Dict.t (list string))
    (user_skills : list string) (s : Py.state) :
  exists scores,
    all_roles_scores catalog user_skills s = (Py.Ret scores, s)
    /\ StronglySorted (PySort.ge_key Match_pct) scores
    /\ forall e,
         In e scores
         <-> exists role req_skills,
               In (role, req_skills) catalog
               /\ e = score_entry user_skills role req_skills.
Proof.
  rewrite all_roles_scores_run. eexists. split; [reflexivity|].
  split; [apply PySortFacts.sorted_reverse_sorted|].
  intros e. split.
  - intros H.
    apply (Permutation_in _
             (Permutation_sym (PySortFacts.sorted_reverse_perm _ _))) in H.
    apply in_map_iff in H. destruct H as ([role req] & <- & H).
    now exists role, req.
  - intros (role & req & H & ->).
    eapply Permutation_in; [apply PySortFacts.sorted_reverse_perm|].
    apply in_map_iff. now exists (role, req).
Qed.

Lemma missing_entry (user_skills : list string) (role : string)
    (req_skills : list string) :
  Missing_Skills (score_entry user_skills role req_skills)
  = filter (fun sk => negb (PyStr.mem sk user_skills)) req_skills.
Proof. apply matched_missing. Qed.

(** *** The percentage of line 120 keeps the order and the range *)

(** What line 120 computes from the two lengths. *)
Lemma percent_mono (m m' n : nat) :
  m <= m' ->
  (PyNum.round2 (PyNum.mul (PyNum.fl (PyNum.of_nat m / PyNum.of_nat n)) 100)
   <= PyNum.round2
        (PyNum.mul (PyNum.fl (PyNum.of_nat m' / PyNum.of_nat n)) 100))%Q.
Proof.
  intros L.
  assert (I : (0 <= / PyNum.of_nat n)%Q)
    by apply Qinv_le_0_compat, PyNumFacts.of_nat_nonneg.
  assert (Q0 : (0 <= PyNum.of_nat m / PyNum.of_nat n)%Q)
    by (apply Qmult_le_0_compat; [apply PyNumFacts.of_nat_nonneg | exact I]).
  assert (Q1 : (PyNum.of_nat m / PyNum.of_nat n
                <= PyNum.of_nat m' / PyNum.of_nat n)%Q).
  { unfold Qdiv. apply Qmult_le_compat_r; [|exact I].
    now apply PyNumFacts.of_nat_le. }
  pose proof (PyNumFacts.fl_nonneg _ Q0) as F0.
  pose proof (PyNumFacts.fl_mono _ _ Q0 Q1) as F1.
  assert (P0 : (0 <= PyNum.fl (PyNum.of_nat m / PyNum.of_nat n) * 100)%Q)
    by lra.
  unfold PyNum.mul.
  apply PyNumFacts.round2_mono; [now apply PyNumFacts.fl_nonneg|].
  apply PyNumFacts.fl_mono; [exact P0 | lra].
Qed.

Lemma percent_zero (n : nat) :
  PyNum.round2 (PyNum.mul (PyNum.fl (PyNum.of_nat 0 / PyNum.of_nat n)) 100)
  = 0%Q.
Proof.
  rewrite (PyNumFacts.fl_zero (PyNum.of_nat 0 / PyNum.of_nat n)%Q);
    [reflexivity|].
  unfold Qdiv. apply Qmult_0_l.
Qed.

Lemma percent_full (n : nat) :
  1 <= n ->
  PyNum.round2 (PyNum.mul (PyNum.fl (PyNum.of_nat n / PyNum.of_nat n)) 100)
  = 100%Q.
Proof.
  intros Hn.
  rewrite (PyNumFacts.fl_compat _ 1) by now apply PyNumFacts.ratio_self.
  vm_compute. reflexivity.
Qed.

Lemma percent_range (m n : nat) :
  m <= n -> 1 <= n ->
  (0 <= PyNum.round2
          (PyNum.mul (PyNum.fl (PyNum.of_nat m / PyNum.of_nat n)) 100))%Q
  /\ (PyNum.round2
        (PyNum.mul (PyNum.fl (PyNum.of_nat m / PyNum.of_nat n)) 100)
      <= 100)%Q.
Proof.
  intros Hmn Hn. split.
  - rewrite <- (percent_zero n) at 1. apply percent_mono. lia.
  - rewrite <- (percent_full n Hn) at 2. now apply percent_mono.
Qed.

Lemma filter_length_le {A} (f : A -> bool) (l : list A) :
  List.length (filter f l) <= List.length l.
Proof. induction l as [|x l IH]; simpl; [lia|]. destruct (f x); simpl; lia. Qed.

Lemma filter_length_mono {A} (f g : A -> bool) (l : list A) :
  (forall x, f x = true -> g x = true) ->
  List.length (filter f l) <= List.length (filter g l).
Proof.
  intros H. induction l as [|x l IH]; simpl; [lia|].
  destruct (f x) eqn:F.
  - rewrite (H x F). simpl. lia.
  - destruct (g x); simpl; lia.
Qed.

Lemma entry_bounds (user_skills : list string) (role : string)
    (req_skills : list string) :
  let e := score_entry user_skills role req_skills in
  (0 <= Match_pct e)%Q /\ (Match_pct e <= 100)%Q
  /\ (Matched_Skills e = [] -> Match_pct e = 0%Q)
  /\ (Missing_Skills e = [] -> Matched_Skills e <> [] ->
      Match_pct e = 100%Q).
Proof.
  cbn zeta. rewrite missing_entry.
  cbn [score_entry Match_pct Matched_Skills].
  destruct req_skills as [|r req]; [repeat split; try discriminate; tauto|].
  set (l := r :: req).
  set (m := filter (fun s => PyStr.mem s user_skills) l).
  assert (Hn : 1 <= List.length l) by (simpl; lia).
  pose proof (filter_length_le (fun s => PyStr.mem s user_skills) l) as Hm.
  fold m in Hm.
  rewrite !len_of_nat.
  destruct (percent_range _ _ Hm Hn) as [R0 R1].
  split; [exact R0|]. split; [exact R1|]. split.
  - intros E. rewrite E. apply percent_zero.
  - intros E _.
    pose proof (filter_split_length (fun s => PyStr.mem s user_skills) l) as S.
    fold m in S. cbn beta in S. rewrite E in S. cbn [List.length] in S.
    rewrite Nat.add_0_r in S. rewrite S.
    now apply percent_full.
Qed.

Lemma in_skipn {A} (n : nat) (l : list A) (b : A) :
  In b (skipn n l) -> In b l.
Proof.
  intros H. rewrite <- (firstn_skipn n l). apply in_or_app. now right.
Qed.

Lemma in_firstn {A} (n : nat) (l : list A) (a : A) :
  In a (firstn n l) -> In a l.
Proof.
  intros H. rewrite <- (firstn_skipn n l). apply in_or_app. now left.
Qed.

Lemma sorted_firstn_skipn {A} (R : A -> A -> Prop) (l : list A) (n : nat) :
  StronglySorted R l ->
  forall a b, In a (firstn n l) -> In b (skipn n l) -> R a b.
Proof.
  intros S. revert n. induction S as [|x l S IH F]; intros n a b Ha Hb.
  - rewrite firstn_nil in Ha. destruct Ha.
  - destruct n as [|n]; [destruct Ha|]. cbn [firstn skipn] in Ha, Hb.
    destruct Ha as [<-|Ha].
    + rewrite Forall_forall in F. apply F.
      exact (in_skipn n l b Hb).
    + now apply (IH n).
Qed.

End MatcherFacts.

(** X4: in every entry of the scores the matched and the missing skills
    split the required skills of a role of that name: together they are the
    required list rearranged, a required skill is matched when the user has
    it, in just this spelling, and missing when not. *)
Theorem matched_missing_partition
    (catalog : Dict.t (list string)) (user_skills : list string)
    (s : Py.state) :
  exists scores,
    all_roles_scores catalog user_skills s = (Py.Ret scores, s)
    /\ Forall
         (fun e =>
            exists req_skills,
              In (Role e, req_skills) catalog
              /\ Permutation (Matched_Skills e ++ Missing_Skills e)%list
                   req_skills
              /\ (List.length (Matched_Skills e)
                  + List.length (Missing_Skills e)
                  = List.length req_skills)%nat
              /\ (forall sk,
                    In sk (Matched_Skills e)
                    <-> In sk req_skills /\ In sk user_skills)
              /\ (forall sk,
                    In sk (Missing_Skills e)
                    <-> In sk req_skills /\ ~ In sk user_skills))
         scores.
Proof.
  destruct (MatcherFacts.scores_entries catalog user_skills s)
    as (scores & R & _ & E).
  exists scores. split; [exact R|].
  apply Forall_forall. intros e He. apply E in He.
  destruct He as (role & req & Hin & ->). exists req.
  rewrite MatcherFacts.missing_entry. cbn [score_entry Role Matched_Skills].
  split; [exact Hin|]. split; [apply MatcherFacts.filter_split_perm|].
  split; [apply MatcherFacts.filter_split_length|]. split.
  - intros sk. rewrite filter_In, MatcherFacts.mem_In. tauto.
  - intros sk. rewrite filter_In, negb_true_iff, MatcherFacts.mem_not_In.
    tauto.
Qed.

(** X5: every match percentage is between 0 and 100; it is 0 when nothing
    is matched, and 100 when something is matched and nothing is missing. *)
Theorem match_percentage_bounds
    (catalog : Dict.t (list string)) (user_skills : list string)
    (s : Py.state) :
  exists scores,
    all_roles_scores catalog user_skills s = (Py.Ret scores, s)
    /\ Forall
         (fun e =>
            (0 <= Match_pct e)%Q /\ (Match_pct e <= 100)%Q
            /\ (Matched_Skills e = [] -> Match_pct e = 0%Q)
            /\ (Missing_Skills e = [] -> Matched_Skills e <> [] ->
                Match_pct e = 100%Q))
         scores.
Proof.
  destruct (MatcherFacts.scores_entries catalog user_skills s)
    as (scores & R & _ & E).
  exists scores. split; [exact R|].
  apply Forall_forall. intros e He. apply E in He.
  destruct He as (role & req & _ & ->).
  apply MatcherFacts.entry_bounds.
Qed.

(** X6: a user who has every skill of another and maybe more never scores
    lower for a role: the percentage is at least as high, what was matched
    stays matched, and nothing new is missing. *)
Theorem more_skills_never_lower
    (user_skills user_skills' : list string) (role : string)
    (req_skills : list string) (s : Py.state) :
  (forall sk, In sk user_skills -> In sk user_skills') ->
  exists e e',
    score_role user_skills role req_skills s = (Py.Ret e, s)
    /\ score_role user_skills' role req_skills s = (Py.Ret e', s)
    /\ (Match_pct e <= Match_pct e')%Q
    /\ incl (Matched_Skills e) (Matched_Skills e')
    /\ incl (Missing_Skills e') (Missing_Skills e).
Proof.
  intros Sub. rewrite !score_role_run. do 2 eexists.
  split; [reflexivity|]. split; [reflexivity|].
  rewrite !MatcherFacts.missing_entry.
  cbn [score_entry Match_pct Matched_Skills].
  assert (M : forall x, PyStr.mem x user_skills = true ->
                        PyStr.mem x user_skills' = true).
  { intros x. rewrite !MatcherFacts.mem_In. apply Sub. }
  split; [|split].
  - destruct req_skills as [|r req]; [apply Qle_refl|].
    rewrite !len_of_nat. apply MatcherFacts.percent_mono.
    now apply MatcherFacts.filter_length_mono.
  - intros x Hx. apply filter_In in Hx. apply filter_In.
    split; [tauto|]. apply M. tauto.
  - intros x Hx. apply filter_In in Hx. apply filter_In.
    split; [tauto|]. destruct Hx as [_ Hx].
    apply negb_true_iff in Hx. apply negb_true_iff.
    destruct (PyStr.mem x user_skills) eqn:Y; [|reflexivity].
    rewrite (M x Y) in Hx. discriminate.
Qed.

Lemma more_skills_never_lower_witness :
  (forall sk, In sk ["SQL"] -> In sk ["Python"; "SQL"])
  /\ exists e e',
       score_role ["SQL"] "Product Manager"
         ["Agile"; "Communication"; "Market Research"; "Roadmapping"; "SQL"]
         init = (Py.Ret e, init)
       /\ score_role ["Python"; "SQL"] "Product Manager"
            ["Agile"; "Communication"; "Market Research"; "Roadmapping"; "SQL"]
            init = (Py.Ret e', init)
       /\ (Match_pct e <= Match_pct e')%Q
       /\ incl (Matched_Skills e) (Matched_Skills e')
       /\ incl (Missing_Skills e') (Missing_Skills e).
Proof.
  assert (H : forall sk, In sk ["SQL"] -> In sk ["Python"; "SQL"])
    by (simpl; intros sk [<-|[]]; auto).
  split; [exact H|].
  exact (more_skills_never_lower ["SQL"] ["Python"; "SQL"] "Product Manager"
           ["Agile"; "Communication"; "Market Research"; "Roadmapping"; "SQL"]
           init H).
Defined.

(** X7: the five scores that the plan and the charts use are the best: no
    role after the fifth scores higher than one of the first five. *)
Theorem top_five_are_best
    (catalog : Dict.t (list string)) (user_skills : list string)
    (s : Py.state) :
  exists scores,
    all_roles_scores catalog user_skills s = (Py.Ret scores, s)
    /\ forall e e',
         In e (firstn 5 scores) -> In e' (skipn 5 scores) ->
         (Match_pct e' <= Match_pct e)%Q.
Proof.
  destruct (MatcherFacts.scores_entries catalog user_skills s)
    as (scores & R & S & _).
  exists scores. split; [exact R|]. intros e e' He He'.
  exact (MatcherFacts.sorted_firstn_skipn _ scores 5 S e e' He He').
Qed.

(** X8: the plan made from the scores never lists a skill the user has;
    every skill in it is required by a role of the catalog; and it is empty
    exactly when none of the first five roles misses a skill. *)
Theorem plan_lists_only_missing_skills
    (catalog : Dict.t (list string)) (user_skills : list string)
    (s : Py.state) :
  exists scores,
    all_roles_scores catalog user_skills s = (Py.Ret scores, s)
    /\ (forall item,
          In item (plan scores) ->
          ~ In (Skill item) user_skills
          /\ exists role req_skills,
               In (role, req_skills) catalog /\ In (Skill item) req_skills)
    /\ (plan scores = []
        <-> Forall (fun e => Missing_Skills e = []) (firstn 5 scores)).
Proof.
  destruct (MatcherFacts.scores_entries catalog user_skills s)
    as (scores & R & _ & E).
  exists scores. split; [exact R|]. rewrite plan_flat_map. split.
  - intros item H. apply in_flat_map in H. destruct H as (e & He & H).
    apply in_map_iff in H. destruct H as (sk & <- & Hsk). cbn [plan_item Skill].
    apply MatcherFacts.in_firstn, E in He.
    destruct He as (role & req & Hin & ->).
    rewrite MatcherFacts.missing_entry in Hsk. apply filter_In in Hsk.
    destruct Hsk as [Hreq Hno]. apply negb_true_iff in Hno.
    apply MatcherFacts.mem_not_In in Hno.
    split; [exact Hno|]. now exists role, req.
  - generalize (firstn 5 scores) as l. intros l.
    induction l as [|e l IH]; cbn [flat_map].
    + split; [constructor | reflexivity].
    + split.
      * intros H. apply app_eq_nil in H. destruct H as [H1 H2].
        constructor; [|now apply IH].
        destruct (Missing_Skills e); [reflexivity | discriminate H1].
      * intros H. inversion H as [|? ? H1 H2]; subst.
        rewrite H1. cbn [map List.app]. now apply IH.
Qed.

(** ** The charts *)

Module ChartFacts.

Lemma get_in {V} (d : Dict.t V) (k : string) (v : V) :
  Dict.get d k = Some v -> In (k, v) d.
Proof.
  induction d as [|[k0 v0] d IH]; simpl; [discriminate|].
  destruct (String.eqb_spec k k0) as [->|_].
  - intros [= ->]. now left.
  - intros H. right. now apply IH.
Qed.

Lemma get_default_unit (conf : Dict.t Q) (k : string) :
  unit_valued conf ->
  (0 <= Dict.get_default conf k 0)%Q /\ (Dict.get_default conf k 0 <= 1)%Q.
Proof.
  intros U. unfold Dict.get_default.
  destruct (Dict.get conf k) as [v|] eqn:G.
  - apply (U k v). now apply get_in.
  - split; discriminate.
Qed.

(** The required skills that the charts look up are skills of the
    vocabulary. *)
Lemma get_default_common (catalog : Dict.t (list string)) (role sk : string) :
  In sk (Dict.get_default catalog role []) -> In sk (common_skills catalog).
Proof.
  unfold Dict.get_default.
  destruct (Dict.get catalog role) as [req|] eqn:G; [|intros []].
  intros H. apply ExtractFacts.in_common_skills.
  exists role, req. split; [now apply get_in | exact H].
Qed.

Lemma ones_of_row (req cs : list string) :
  List.length
    (filter (Qeq_bool 1)
       (map (fun skill => if PyStr.mem skill req then 1%Q else 0%Q) cs))
  = List.length (filter (fun skill => PyStr.mem skill req) cs).
Proof.
  induction cs as [|c cs IH]; [reflexivity|]. cbn [map filter].
  destruct (PyStr.mem c req).
  - change (Qeq_bool 1 1) with true. cbn [List.length]. now rewrite IH.
  - change (Qeq_bool 1 0) with false. cbv iota. exact IH.
Qed.

Lemma filter_members_length (req cs : list string) :
  NoDup cs -> incl req cs ->
  List.length (filter (fun skill => PyStr.mem skill req) cs)
  = List.length (nodup string_dec req).
Proof.
  intros N I. apply Permutation_length, NoDup_Permutation.
  - now apply NoDup_filter.
  - apply NoDup_nodup.
  - intros x. rewrite filter_In, nodup_In, MatcherFacts.mem_In.
    split; [tauto|]. intros H. split; [now apply I | exact H].
Qed.

End ChartFacts.

(** X9: whenever the script returns, every radar chart it draws has
    distinct axes, which are the skills of the user and the skills the
    catalog requires for the role; its two series have a value for every
    axis; the user's values are in [0,1], the range of the chart, and the
    role's values are 0 or 1.  The script draws no chart only when it raises,
    which it does only with an exception of the tokenizer, after an upload. *)
Theorem radar_charts_in_range
    (nlp : string -> Py.exn + list string) (catalog : Dict.t (list string))
    (uploaded_resume : option UploadedFile) (manual_skills : string)
    (s : Py.state) :
  match app_py nlp catalog uploaded_resume manual_skills s with
  | (Py.Ret o, _) =>
      List.length (out_radars o) = Nat.min 5 (List.length catalog)
      /\ Forall
           (fun r =>
              NoDup (all_skills r)
              /\ (forall sk,
                    In sk (all_skills r)
                    <-> In sk (Dict.keys (out_conf o))
                        \/ In sk
                             (Dict.get_default catalog (radar_role r) []))
              /\ List.length (user_vals r) = List.length (all_skills r)
              /\ List.length (target_vals r) = List.length (all_skills r)
              /\ Forall (fun v => (0 <= v)%Q /\ (v <= 1)%Q) (user_vals r)
              /\ Forall (fun v => v = 0%Q \/ v = 1%Q) (target_vals r))
           (out_radars o)
  | (Py.Exc e, _) =>
      uploaded_resume <> None /\ exists text, nlp text = inl e
  end.
Proof.
  destruct (Script.user_skills_conf_outcome nlp catalog uploaded_resume
              manual_skills s) as (s' & shown & _ & _ & _ & H).
  unfold app_py, Py.bind.
  destruct H as [(conf & -> & U & _)|(e & text & N & _ & T & ->)];
    [|split; [exact N | now exists text]].
  rewrite all_roles_scores_run. cbn [Py.ret out_radars out_conf].
  unfold radars. split.
  - rewrite length_map, length_firstn.
    rewrite <- (Permutation_length (PySortFacts.sorted_reverse_perm _ _)).
    now rewrite length_map.
  - apply Forall_map, Forall_forall. intros e _.
    unfold radar. cbn [all_skills user_vals target_vals radar_role].
    unfold list_set.
    split; [apply NoDup_nodup|]. split.
    { intros sk. rewrite nodup_In, in_app_iff. reflexivity. }
    split; [apply length_map|]. split; [apply length_map|]. split.
    + apply Forall_map, Forall_forall. intros sk _.
      now apply ChartFacts.get_default_unit.
    + apply Forall_map, Forall_forall. intros sk _.
      destruct (PyStr.mem sk _); auto.
Qed.

(** X10: the heat map has a row for each of the first five scores and in
    every row a cell for each skill of the vocabulary, which has no skill
    twice; a cell is 1 when the catalog requires the skill for the role of
    the row and 0 when not, so that a row has as many ones as the role has
    distinct required skills. *)
Theorem heatmap_rows (catalog : Dict.t (list string))
    (scores : list RoleScore) :
  NoDup (common_skills catalog)
  /\ List.length (heatmap_data catalog scores)
     = List.length (heatmap_roles scores)
  /\ (List.length (heatmap_roles scores) <= 5)%nat
  /\ Forall2
       (fun role row =>
          row
          = map (fun skill =>
                   if PyStr.mem skill (Dict.get_default catalog role [])
                   then 1%Q else 0%Q)
                (common_skills catalog)
          /\ List.length row = List.length (common_skills catalog)
          /\ List.length (filter (Qeq_bool 1) row)
             = List.length
                 (nodup string_dec (Dict.get_default catalog role [])))
       (heatmap_roles scores) (heatmap_data catalog scores).
Proof.
  assert (N : NoDup (common_skills catalog)) by apply NoDup_nodup.
  split; [exact N|]. unfold heatmap_roles, heatmap_data.
  split; [now rewrite !length_map|].
  split; [rewrite length_map, length_firstn; lia|].
  induction (firstn 5 scores) as [|e l IH]; cbn [map]; constructor;
    [|exact IH].
  split; [reflexivity|]. split; [apply length_map|].
  rewrite ChartFacts.ones_of_row.
  apply ChartFacts.filter_members_length; [exact N|].
  intros sk. apply ChartFacts.get_default_common.
Qed.

(** ** More on skill extraction *)

Module CounterFacts.

Lemma get_set {V} (d : Dict.t V) (k k' : string) (v : V) :
  Dict.get (Dict.set d k v) k'
  = if String.eqb k' k then Some v else Dict.get d k'.
Proof.
  induction d as [|[k0 v0] d IH]; simpl.
  - reflexivity.
  - destruct (String.eqb_spec k k0) as [->|D]; simpl.
    + destruct (String.eqb_spec k' k0); reflexivity.
    + rewrite IH. destruct (String.eqb_spec k' k0) as [->|D'].
      * destruct (String.eqb_spec k0 k); [congruence | reflexivity].
      * reflexivity.
Qed.

Lemma keys_functional {V} (d : Dict.t V) (k : string) (v v' : V) :
  NoDup (Dict.keys d) -> In (k, v) d -> In (k, v') d -> v = v'.
Proof.
  induction d as [|[k0 v0] d IH]; [intros _ []|].
  cbn [Dict.keys map fst]. intros N H H'.
  inversion N as [|? ? N1 N2]; subst.
  assert (F : forall w, In (k0, w) d -> False).
  { intros w Hw. apply N1. change k0 with (fst (k0, w)). now apply in_map. }
  destruct H as [E|H], H' as [E'|H'].
  - congruence.
  - injection E as -> ->. destruct (F _ H').
  - injection E' as -> ->. destruct (F _ H).
  - now apply IH.
Qed.

(** A [Counter] counts: a key has the number of its occurrences. *)
Lemma get_default_counts (l : list string) (acc : Dict.t nat) (k : string) :
  Dict.get_default (fold_left Dict.incr l acc) k 0
  = Dict.get_default acc k 0 + count_occ string_dec l k.
Proof.
  revert acc. induction l as [|x l IH]; intros acc; cbn [fold_left count_occ].
  - lia.
  - rewrite IH. unfold Dict.incr at 1. unfold Dict.get_default at 1.
    rewrite get_set.
    destruct (String.eqb_spec k x) as [->|D].
    + destruct (string_dec x x); [lia | congruence].
    + destruct (string_dec x k); [congruence|].
      unfold Dict.get_default. lia.
Qed.

Lemma in_Counter (l : list string) (k : string) (c : nat) :
  In (k, c) (Dict.Counter l) <-> In k l /\ c = count_occ string_dec l k.
Proof.
  assert (G : forall k', In k' l ->
                In (k', count_occ string_dec l k') (Dict.Counter l)).
  { intros k' H. apply DictFacts.in_keys_Counter in H.
    apply DictFacts.get_default_in in H.
    pose proof (get_default_counts l Dict.empty k') as C.
    change (fold_left Dict.incr l Dict.empty) with (Dict.Counter l) in C.
    change (Dict.get_default Dict.empty k' 0) with 0 in C.
    rewrite Nat.add_0_l in C. now rewrite C in H. }
  split.
  - intros H.
    assert (K : In k l).
    { apply DictFacts.in_keys_Counter. change k with (fst (k, c)).
      now apply in_map. }
    split; [exact K|].
    exact (keys_functional _ k c _ (DictFacts.NoDup_keys_Counter l) H
             (G k K)).
  - intros [K ->]. now apply G.
Qed.

End CounterFacts.

(** X11: when the tokenizer raises, [extract_skills] raises the same
    exception.  When it returns, the mapping has exactly the tokens found as
    keys, and the confidence of a token is the number of its occurrences
    among the tokens found, divided in binary64 by the largest such number,
    and then rounded to two decimals. *)
Theorem extract_skills_counts
    (nlp : string -> Py.exn + list string) (catalog : Dict.t (list string))
    (text : string) (s : Py.state) :
  match nlp text with
  | inl e => extract_skills nlp catalog text s = (Py.Exc e, s)
  | inr doc =>
      let found := skills_found catalog doc in
      let largest := max_count (Dict.Counter found) in
      exists conf,
        extract_skills nlp catalog text s = (Py.Ret conf, s)
        /\ (forall k v,
              In (k, v) conf
              <-> In k found
                  /\ v = PyNum.round2
                           (PyNum.fl
                              (PyNum.of_nat (count_occ string_dec found k)
                               / PyNum.of_nat largest))%Q)
        /\ (forall k, count_occ string_dec found k <= largest)%nat
        /\ (found <> [] ->
            exists k, In k found /\ count_occ string_dec found k = largest)
  end.
Proof.
  destruct (nlp text) as [e|doc] eqn:T;
    [now apply ExtractFacts.extract_skills_raises|].
  cbn zeta. rewrite (ExtractFacts.extract_skills_run _ _ _ _ _ T).
  set (found := skills_found catalog doc).
  set (counts := Dict.Counter found).
  eexists. split; [reflexivity|]. split; [|split].
  - intros k v. unfold confidences. rewrite in_map_iff. split.
    + intros ([k' c] & [= <- <-] & H). cbn [fst snd].
      apply CounterFacts.in_Counter in H. destruct H as [K ->]. now split.
    + intros [K ->]. exists (k, count_occ string_dec found k).
      split; [reflexivity|]. now apply CounterFacts.in_Counter.
  - intros k. destruct (in_dec string_dec k found) as [K|K].
    + assert (H : In (k, count_occ string_dec found k) counts)
        by now apply CounterFacts.in_Counter.
      unfold max_count. destruct counts as [|kc d] eqn:E; [destruct H|].
      apply ExtractFacts.max_list_ge.
      change (count_occ string_dec found k)
        with (snd (k, count_occ string_dec found k)).
      now apply in_map.
    + apply (count_occ_not_In string_dec) in K. rewrite K. lia.
  - intros NE.
    assert (NE' : counts <> []).
    { intros C. apply NE. now apply DictFacts.Counter_empty. }
    assert (M : In (max_count counts) (Dict.values counts)).
    { unfold max_count. destruct counts as [|kc d] eqn:E; [congruence|].
      apply ExtractFacts.max_list_in. discriminate. }
    apply in_map_iff in M. destruct M as ([k c] & Hc & H). simpl in Hc.
    apply CounterFacts.in_Counter in H. destruct H as [K ->].
    now exists k.
Qed.

(** X12: skills read from a text count for a role only in the spelling of
    the catalog: when the tokenizer returns, the matched skills of a role
    are its required skills that are tokens of the text as they stand, and
    the others are missing, also those that the text has in another case;
    when the tokenizer raises, so does [extract_skills]. *)
Theorem text_skills_match_verbatim
    (nlp : string -> Py.exn + list string) (catalog : Dict.t (list string))
    (text : string) (role : string) (req_skills : list string)
    (s : Py.state) :
  In (role, req_skills) catalog ->
  match nlp text with
  | inl e => extract_skills nlp catalog text s = (Py.Exc e, s)
  | inr doc =>
      exists conf e,
        extract_skills nlp catalog text s = (Py.Ret conf, s)
        /\ score_role (Dict.keys conf) role req_skills s = (Py.Ret e, s)
        /\ Matched_Skills e
           = filter (fun sk => PyStr.mem sk doc) req_skills
        /\ Missing_Skills e
           = filter (fun sk => negb (PyStr.mem sk doc)) req_skills
  end.
Proof.
  intros Hin.
  destruct (nlp text) as [e|doc] eqn:T;
    [now apply ExtractFacts.extract_skills_raises|].
  rewrite (ExtractFacts.extract_skills_run _ _ _ _ _ T).
  eexists. eexists. split; [reflexivity|].
  rewrite score_role_run. split; [reflexivity|].
  rewrite MatcherFacts.missing_entry. cbn [score_entry Matched_Skills].
  rewrite ExtractFacts.keys_confidences.
  assert (K : forall sk, In sk req_skills ->
                PyStr.mem sk
                  (Dict.keys (Dict.Counter (skills_found catalog doc)))
                = PyStr.mem sk doc).
  { intros sk Hsk. apply eq_true_iff_eq.
    rewrite !MatcherFacts.mem_In, DictFacts.in_keys_Counter,
      ExtractFacts.in_skills_found.
    split; [tauto|]. intros H. split; [exact H|].
    apply in_map, ExtractFacts.in_common_skills. now exists role, req_skills. }
  split; apply filter_ext_in; intros sk Hsk; now rewrite K.
Qed.

Lemma text_skills_match_verbatim_witness :
  In ("Data Scientist",
      ["Python"; "SQL"; "Machine Learning"; "Statistics"; "Data Visualization"])
     role_skills
  /\ exists conf e,
       extract_skills (fun t => inr (PyStr.split " " t)) role_skills
         "python and SQL" init
       = (Py.Ret conf, init)
       /\ score_role (Dict.keys conf) "Data Scientist"
            ["Python"; "SQL"; "Machine Learning"; "Statistics";
             "Data Visualization"] init
          = (Py.Ret e, init)
       /\ Matched_Skills e
          = filter (fun sk =>
                      PyStr.mem sk (PyStr.split " " "python and SQL"))
              ["Python"; "SQL"; "Machine Learning"; "Statistics";
               "Data Visualization"]
       /\ Missing_Skills e
          = filter (fun sk =>
                      negb (PyStr.mem sk (PyStr.split " " "python and SQL")))
              ["Python"; "SQL"; "Machine Learning"; "Statistics";
               "Data Visualization"].
Proof.
  assert (H : In ("Data Scientist",
                  ["Python"; "SQL"; "Machine Learning"; "Statistics";
                   "Data Visualization"]) role_skills)
    by (simpl; left; reflexivity).
  split; [exact H|].
  exact (text_skills_match_verbatim (fun t => inr (PyStr.split " " t))
           role_skills "python and SQL" "Data Scientist"
           ["Python"; "SQL"; "Machine Learning"; "Statistics";
            "Data Visualization"] init H).
Defined.

(** ** The regular expressions *)

Module ReFacts.
Import Re.

Lemma plus_then_sound (k : cls)
    (rest : string -> option (list string * string)) (t : string) :
  forall taken parts r,
    plus_then k rest t = Some (taken, parts, r) ->
    exists t1,
      t = taken ++ t1 /\ taken <> "" /\ all_accepted k taken = true
      /\ rest t1 = Some (parts, r).
Proof.
  induction t as [|x t IH]; intros taken parts r; cbn [plus_then];
    [discriminate|].
  destruct (accepts k x) eqn:A; [|discriminate].
  destruct (plus_then k rest t) as [[[tk ps] r']|] eqn:P.
  - intros [= <- <- <-]. destruct (IH _ _ _ eq_refl) as (t1 & -> & _ & W & R).
    exists t1. cbn [all_accepted]. rewrite A, W.
    repeat split; [discriminate | exact R].
  - destruct (rest t) as [[ps r']|] eqn:R; [|discriminate].
    intros [= <- <- <-]. exists t. cbn [all_accepted]. rewrite A.
    repeat split; [discriminate | exact R].
Qed.

(** A match splits the text into what the items took and the rest, and each
    item took a text it can take. *)
Lemma match_here_sound (p : list item) :
  forall t parts r,
    match_here p t = Some (parts, r) ->
    t = String.concat "" parts ++ r /\ Forall2 takes p parts.
Proof.
  induction p as [|[k|k|k] p IH]; intros t parts r; cbn [match_here].
  - intros [= <- <-]. split; [reflexivity | constructor].
  - destruct t as [|x t]; [discriminate|].
    destruct (accepts k x) eqn:A; [|discriminate].
    destruct (match_here p t) as [[ps r']|] eqn:M; [|discriminate].
    intros [= <- <-]. destruct (IH _ _ _ M) as [-> F].
    rewrite concat_empty_cons. split; [reflexivity|].
    constructor; [now exists x | exact F].
  - destruct (plus_then k (match_here p) t) as [[[tk ps] r']|] eqn:P;
      [|discriminate].
    intros [= <- <-].
    destruct (plus_then_sound _ _ _ _ _ _ P) as (t1 & -> & N & W & M).
    destruct (IH _ _ _ M) as [-> F].
    rewrite concat_empty_cons, PyStrFacts.append_assoc.
    split; [reflexivity|]. constructor; [now split | exact F].
  - assert (Without :
              forall ps0 r0,
                match match_here p t with
                | Some (parts, r) => Some (EmptyString :: parts, r)
                | None => None
                end = Some (ps0, r0) ->
                t = String.concat "" ps0 ++ r0 /\ Forall2 takes (Opt k :: p) ps0).
    { intros ps0 r0.
      destruct (match_here p t) as [[ps r']|] eqn:M; [|discriminate].
      intros [= <- <-]. destruct (IH _ _ _ M) as [E F].
      rewrite concat_empty_cons. split; [exact E|].
      constructor; [now left | exact F]. }
    destruct t as [|x t]; [apply Without|].
    destruct (accepts k x) eqn:A; [|apply Without].
    destruct (match_here p t) as [[ps r']|] eqn:M; [|apply Without].
    intros [= <- <-]. destruct (IH _ _ _ M) as [-> F].
    rewrite concat_empty_cons. split; [reflexivity|].
    constructor; [right; now exists x | exact F].
Qed.

(** What [findall] returns comes from a match somewhere in the text. *)
Lemma findall_from_sound (p : list item) (result : list string -> string)
    (t : string) :
  forall skip x,
    In x (findall_from p result skip t) ->
    exists pre parts r,
      t = pre ++ String.concat "" parts ++ r
      /\ Forall2 takes p parts
      /\ x = result parts.
Proof.
  induction t as [|c t IH]; intros skip x; cbn [findall_from]; [intros []|].
  assert (Later : forall n,
             In x (findall_from p result n t) ->
             exists pre parts r,
               String c t = pre ++ String.concat "" parts ++ r
               /\ Forall2 takes p parts /\ x = result parts).
  { intros n H. destruct (IH n x H) as (pre & parts & r & -> & F & E).
    now exists (String c pre), parts, r. }
  destruct skip as [|n]; [|apply Later].
  destruct (match_here p (String c t)) as [[parts r]|] eqn:M; [|apply Later].
  intros [<-|H]; [|now apply (Later _ H)].
  destruct (match_here_sound _ _ _ _ M) as [E F].
  now exists "", parts, r.
Qed.

(** A match somewhere in the text makes [findall] return something. *)
Lemma findall_from_found (p : list item) (result : list string -> string)
    (pre rest : string) :
  rest <> "" -> match_here p rest <> None ->
  findall_from p result 0 (pre ++ rest) <> [].
Proof.
  intros NE M. induction pre as [|c pre IH].
  - destruct rest as [|c rest]; [congruence|]. cbn [append findall_from].
    destruct (match_here p (String c rest)) as [[parts r]|];
      [discriminate | congruence].
  - cbn [append findall_from].
    destruct (match_here p (String c (pre ++ rest))) as [[parts r]|];
      [discriminate | exact IH].
Qed.

(** *** Patterns of plain characters *)

Lemma literal_takes_lower (w : string) :
  forall parts,
    Forall2 takes (literal w) parts ->
    PyStr.lower (String.concat "" parts) = PyStr.lower w.
Proof.
  induction w as [|c w IH]; intros parts F.
  - inversion F; subst. reflexivity.
  - change (literal (String c w)) with (One (Lit c) :: literal w) in F.
    inversion F as [|? s ? ps T F']; subst.
    cbn [takes] in T. destruct T as (x & -> & A).
    rewrite concat_empty_cons. cbn [append PyStr.lower].
    cbn [accepts] in A. apply Ascii.eqb_eq in A.
    now rewrite A, (IH _ F').
Qed.

Lemma match_literal (w : string) (p : list item) :
  forall m t,
    PyStr.lower m = PyStr.lower w ->
    match_here p t <> None ->
    match_here (literal w ++ p)%list (m ++ t) <> None.
Proof.
  induction w as [|c w IH]; intros m t E M.
  - destruct m; [exact M | discriminate E].
  - destruct m as [|x m]; [discriminate E|].
    cbn [PyStr.lower] in E. injection E as Ex Em.
    change (literal (String c w) ++ p)%list
      with (One (Lit c) :: (literal w ++ p))%list.
    cbn [append match_here accepts]. rewrite Ex, Ascii.eqb_refl.
    specialize (IH m t Em M).
    destruct (match_here (literal w ++ p)%list (m ++ t)) as [[ps r]|];
      [discriminate | congruence].
Qed.

Lemma lower_empty (m : string) : PyStr.lower m = "" -> m = "".
Proof. destruct m; [reflexivity | discriminate]. Qed.

(** A mention of the word [w], in any case, is found, and all that is found
    is the word in some case and stands in the text. *)
Lemma literal_findall (w text : string) :
  (forall x,
      In x (findall (literal w) whole text) ->
      (exists pre post, text = pre ++ x ++ post)
      /\ PyStr.lower x = PyStr.lower w)
  /\ (w <> "" ->
      forall pre m post,
        text = pre ++ m ++ post -> PyStr.lower m = PyStr.lower w ->
        exists x,
          In x (findall (literal w) whole text)
          /\ PyStr.lower x = PyStr.lower w).
Proof.
  assert (S : forall x,
             In x (findall (literal w) whole text) ->
             (exists pre post, text = pre ++ x ++ post)
             /\ PyStr.lower x = PyStr.lower w).
  { intros x H. apply findall_from_sound in H.
    destruct H as (pre & parts & r & -> & F & ->).
    split; [now exists pre, r | now apply literal_takes_lower]. }
  split; [exact S|]. intros NE pre m post -> E.
  assert (F : findall (literal w) whole (pre ++ m ++ post) <> []).
  { apply findall_from_found.
    - destruct m; [|discriminate].
      destruct w; [congruence | discriminate E].
    - rewrite <- (app_nil_r (literal w)).
      apply match_literal; [exact E | discriminate]. }
  assert (Ex : exists x, In x (findall (literal w) whole (pre ++ m ++ post))).
  { destruct (findall (literal w) whole (pre ++ m ++ post)) as [|x l];
      [congruence | exists x; now left]. }
  destruct Ex as (x & Hx). exists x. split; [exact Hx | now apply S].
Qed.

(** *** [k+] takes all it can *)

Lemma plus_then_stops (k : cls)
    (rest : string -> option (list string * string)) (t : string) :
  match t with
  | EmptyString => True
  | String x _ => accepts k x = false
  end ->
  plus_then k rest t = None.
Proof. destruct t as [|x t]; cbn [plus_then]; [reflexivity|]. now intros ->. Qed.

Lemma plus_then_greedy (k : cls)
    (rest : string -> option (list string * string))
    (taken t1 : string) (parts : list string) (r : string) :
  taken <> "" -> all_accepted k taken = true ->
  match t1 with
  | EmptyString => True
  | String x _ => accepts k x = false
  end ->
  rest t1 = Some (parts, r) ->
  plus_then k rest (taken ++ t1) = Some (taken, parts, r).
Proof.
  intros NE W Stop R. induction taken as [|x taken IH]; [congruence|].
  cbn [all_accepted] in W. apply andb_prop in W. destruct W as [A W].
  cbn [append plus_then]. rewrite A.
  destruct taken as [|y taken].
  - cbn [append]. now rewrite (plus_then_stops k rest t1 Stop), R.
  - rewrite IH; [reflexivity | discriminate | exact W].
Qed.

Lemma match_here_plus (k : cls) (p : list item) (t : string) :
  match_here (Plus k :: p) t
  = match plus_then k (match_here p) t with
    | Some (taken, parts, r) => Some (taken :: parts, r)
    | None => None
    end.
Proof. reflexivity. Qed.

Lemma space_not_digit (x : ascii) :
  accepts Space x = true -> accepts Digit x = false.
Proof.
  destruct x as [[|] [|] [|] [|] [|] [|] [|] [|]];
    intros H; try discriminate H; reflexivity.
Qed.

Lemma letter_y_not_space (x : ascii) :
  PyStr.lower_char x = "y"%char -> accepts Space x = false.
Proof.
  destruct x as [[|] [|] [|] [|] [|] [|] [|] [|]];
    intros H; try discriminate H; reflexivity.
Qed.

End ReFacts.

(** X13: [extract_education] returns no degree twice in one spelling; what
    it returns stands in the text and is, but for the case of its letters,
    one of B.Tech, M.Tech, Bachelor, Master and PhD; and a text that
    mentions one of these, in any case, has it in the result. *)
Theorem extract_education_degrees (text : string) :
  NoDup (extract_education text)
  /\ (forall x,
        In x (extract_education text) ->
        (exists pre post, text = pre ++ x ++ post)
        /\ In (PyStr.lower x)
              ["b.tech"; "m.tech"; "bachelor"; "master"; "phd"])
  /\ (forall degree pre m post,
        In degree ["B.Tech"; "M.Tech"; "Bachelor"; "Master"; "PhD"] ->
        text = pre ++ m ++ post ->
        PyStr.lower m = PyStr.lower degree ->
        exists x,
          In x (extract_education text)
          /\ PyStr.lower x = PyStr.lower degree).
Proof.
  assert (M : forall x,
             In x (extract_education text)
             <-> exists w,
                   In w ["B.Tech"; "M.Tech"; "Bachelor"; "Master"; "PhD"]
                   /\ In x (Re.findall (Re.literal w) Re.whole text)).
  { intros x. unfold extract_education, list_set. rewrite nodup_In.
    cbn [fold_left edu_patterns]. rewrite !in_app_iff. cbn [In]. split.
    - intros [[[[[[]|H]|H]|H]|H]|H]; eexists; (split; [|exact H]); auto 6.
    - intros (w & [<-|[<-|[<-|[<-|[<-|[]]]]]] & H); tauto. }
  split; [apply NoDup_nodup|]. split.
  - intros x H. apply M in H. destruct H as (w & Hw & H).
    destruct (ReFacts.literal_findall w text) as [S _].
    destruct (S x H) as [Sub L]. split; [exact Sub|]. rewrite L.
    destruct Hw as [<-|[<-|[<-|[<-|[<-|[]]]]]]; simpl; auto 6.
  - intros degree pre m post Hd E L.
    destruct (ReFacts.literal_findall degree text) as [_ C].
    destruct (C ltac:(destruct Hd as [<-|[<-|[<-|[<-|[<-|[]]]]]]; discriminate)
                pre m post E L) as (x & Hx & Lx).
    exists x. split; [|exact Lx]. apply M. now exists degree.
Qed.

(** X14: every entry that [extract_experience] returns is a nonempty run of
    decimal digits that stands in the text; and a text that begins with
    digits, then white space, then the word year in any case, has these
    digits as the first entry. *)
Theorem extract_experience_numbers (text : string) :
  (forall x,
      In x (extract_experience text) ->
      x <> "" /\ Re.all_accepted Re.Digit x = true
      /\ exists pre post, text = pre ++ x ++ post)
  /\ (forall digits ws word rest,
        digits <> "" -> Re.all_accepted Re.Digit digits = true ->
        ws <> "" -> Re.all_accepted Re.Space ws = true ->
        PyStr.lower word = "year" ->
        text = digits ++ ws ++ word ++ rest ->
        hd_error (extract_experience text) = Some digits).
Proof.
  split.
  - intros x H. apply ReFacts.findall_from_sound in H.
    destruct H as (pre & parts & r & -> & F & ->).
    unfold exp_pattern in F.
    inversion F as [|? d ? ps T F']; subst. cbn [Re.takes] in T.
    destruct T as [N W]. cbn [Re.group1 hd].
    split; [exact N|]. split; [exact W|].
    exists pre, (String.concat "" ps ++ r).
    now rewrite concat_empty_cons, PyStrFacts.append_assoc.
  - intros digits ws word rest Nd Wd Nw Ww Lw ->.
    assert (Tail : exists ps r,
               Re.match_here
                 [Re.One (Re.Lit "y"); Re.One (Re.Lit "e");
                  Re.One (Re.Lit "a"); Re.One (Re.Lit "r");
                  Re.Opt (Re.Lit "s")] (word ++ rest) = Some (ps, r)).
    { pose proof (ReFacts.match_literal "year" [Re.Opt (Re.Lit "s")]
                    word rest Lw) as M.
      change (Re.literal "year" ++ [Re.Opt (Re.Lit "s")])%list
        with [Re.One (Re.Lit "y"); Re.One (Re.Lit "e");
              Re.One (Re.Lit "a"); Re.One (Re.Lit "r");
              Re.Opt (Re.Lit "s")] in M.
      destruct (Re.match_here _ (word ++ rest)) as [[ps r]|].
      - now exists ps, r.
      - exfalso. apply M; [|reflexivity].
        cbn [Re.match_here]. destruct rest as [|x rest]; [discriminate|].
        destruct (Re.accepts _ x); discriminate. }
    destruct Tail as (ps & r & Tail).
    assert (Spaces :
              Re.plus_then Re.Space
                (Re.match_here
                   [Re.One (Re.Lit "y"); Re.One (Re.Lit "e");
                    Re.One (Re.Lit "a"); Re.One (Re.Lit "r");
                    Re.Opt (Re.Lit "s")])
                (ws ++ word ++ rest) = Some (ws, ps, r)).
    { apply ReFacts.plus_then_greedy; [exact Nw | exact Ww | | exact Tail].
      destruct word as [|x word]; [discriminate Lw|].
      cbn [append]. apply ReFacts.letter_y_not_space.
      cbn [PyStr.lower] in Lw. now injection Lw. }
    assert (Whole :
              Re.match_here exp_pattern (digits ++ ws ++ word ++ rest)
              = Some (digits :: ws :: ps, r)).
    { unfold exp_pattern. rewrite ReFacts.match_here_plus.
      rewrite (ReFacts.plus_then_greedy Re.Digit _ digits
                 (ws ++ word ++ rest) (ws :: ps) r Nd Wd).
      - reflexivity.
      - destruct ws as [|x ws]; [congruence|]. cbn [append].
        apply ReFacts.space_not_digit.
        cbn [Re.all_accepted] in Ww. now apply andb_prop in Ww.
      - now rewrite ReFacts.match_here_plus, Spaces. }
    unfold extract_experience, Re.findall.
    destruct digits as [|d digits]; [congruence|].
    cbn [append Re.findall_from]. cbn [append] in Whole. rewrite Whole.
    reflexivity.
Qed.

(** ** The downloaded plan *)

Lemma map_injective {A B} (f : A -> B) :
  (forall x y, f x = f y -> x = y) ->
  forall l l', map f l = map f l' -> l = l'.
Proof.
  intros I l. induction l as [|x l IH]; intros [|y l'] E;
    try discriminate E; [reflexivity|].
  injection E as Ex El. f_equal; [now apply I | now apply IH].
Qed.

Lemma record_of_injective (a b : PlanItem) : record_of a = record_of b -> a = b.
Proof.
  destruct a as [w sk rs], b as [w' sk' rs']. unfold record_of.
  cbn [Week Skill Resources]. intros [= -> -> E]. f_equal.
  apply (map_injective Json.Str); [|exact E]. now intros x y [= ->].
Qed.

(** X15: the JSON text written for any plan, whatever its weeks, skills and
    resources, reads back as the list of its items, each as an object with
    the fields Week, Skill and Resources; so the text determines the plan:
    two plans with the same text are the same plan. *)
Theorem plan_json_determines_plan (plan1 plan2 : list PlanItem) :
  Json.loads (plan_df_to_json plan1)
  = Some (Json.Arr
            (map (fun item =>
                    Json.Obj
                      [ ("Week", Json.Int (Week item));
                        ("Skill", Json.Str (Skill item));
                        ("Resources",
                         Json.Arr (map Json.Str (Resources item))) ])
                 plan1))
  /\ (plan_df_to_json plan1 = plan_df_to_json plan2 -> plan1 = plan2).
Proof.
  split; [apply JsonFacts.loads_dumps|].
  intros E.
  pose proof (JsonFacts.loads_dumps (Json.Arr (map record_of plan1))) as L1.
  pose proof (JsonFacts.loads_dumps (Json.Arr (map record_of plan2))) as L2.
  unfold plan_df_to_json in E. rewrite E, L2 in L1. injection L1 as L.
  symmetry. exact (map_injective record_of record_of_injective _ _ L).
Qed.
